(** * containerd-shim-runhcs-v1: the task / exec lifecycle of [hcsTask]

    A shallow embedding of [cmd/containerd-shim-runhcs-v1/task_hcs.go]
    together with the test doubles [testShimTask] and [testShimExec].

    Conventions of the embedding.
    - A Go [error] is kept as its cause (what [errors.Cause] returns): the
      text added by [errors.Wrap] / [errors.Wrapf] is dropped.
    - Everything a function does to the world outside the values it returns
      is appended to a trace of [effect]s: events handed to [ht.events],
      signals delivered by [Kill], calls into the container engine, the
      boundary and the file system, and log lines.  The value [ht.events]
      returns is ignored by every caller in the source and so is it here.
    - What a collaborator outside this file answers is read from a record
      of answers ([engine], [provisioner]); statements quantify over it.
    - [sync.Map] is an association list whose order is the order in which
      [Range] visits the entries.  Go leaves that order open, so statements
      quantify over every list.
    - [errgroup.Group] keeps the first non-nil error handed to it.  The
      goroutines started with [Go] are run in the order they are started,
      which is one of the schedules Go allows: the order of the signals in a
      trace of [KillExec] with [all] set, and the error that wins when more
      than one [Kill] fails, are those of that schedule.
    - Slices of strings live in a heap of backing arrays, so that two slices
      may share storage.
    - [int] is 64 bits wide, [uint32] is reduced modulo [2^32]. *)

From Stdlib Require Import ZArith.
From stdpp Require Import base option list strings gmap.
From stdpp Require Import pretty.

Local Open Scope Z_scope.
Local Open Scope string_scope.
Local Open Scope list_scope.

(** ** Errors and plain data *)

(** The sentinels of [containerd/errdefs] the task returns, and [ErrExternal]
    for whatever error a collaborator (relay, exec, engine) hands back. *)
Inductive error : Type :=
| ErrAlreadyExists
| ErrFailedPrecondition
| ErrNotFound
| ErrNotImplemented
| ErrExternal (msg : string).

#[global] Instance error_eq_dec : EqDecision error.
Proof. solve_decision. Defined.

(** Modelled from the spec: the declaration of [shimExecState] is not part of
    the sources at hand; the states are Created, Running and Exited. *)
Inductive shimExecState : Type :=
| shimExecStateCreated
| shimExecStateRunning
| shimExecStateExited.

#[global] Instance shimExecState_eq_dec : EqDecision shimExecState.
Proof. solve_decision. Defined.

(** [time.Time] as an instant; [time.Time{}] is the zero instant.
    [time.Duration] counts nanoseconds. *)
Definition Time : Type := Z.
Definition Time_zero : Time := 0.
Definition Duration : Type := Z.
Definition time_Second : Duration := 1000000000.
Definition time_Minute : Duration := 60 * time_Second.

Definition uint32 (n : Z) : Z := n mod 2 ^ 32.
Definition int (n : Z) : Z := n.

(** The fields of [task.StateResponse] the task reads. *)
Record StateResponse : Type := mkStateResponse {
  sr_ID : string;
  sr_Bundle : string;
  sr_Pid : Z;
  sr_ExitStatus : Z;
  sr_ExitedAt : Time
}.

(** Modelled from the spec: [newExecInvalidStateError] is declared outside the
    sources at hand; an operation that is invalid in the current state of an
    exec is a precondition violation. *)
Definition newExecInvalidStateError
    (tid eid : string) (state : shimExecState) (op : string) : error :=
  ErrFailedPrecondition.

(** ** The [shimExec] interface and its test double *)

Class shimExec (E : Type) : Type := {
  ID : E → string;
  Pid : E → Z;
  State : E → shimExecState;
  Status : E → StateResponse;
  Kill : E → Z → E * option error
}.

Record testShimExec : Type := mkTestShimExec {
  tse_id : string;
  tse_pid : Z;
  tse_state : shimExecState
}.

Definition testShimExec_Status (tse : testShimExec) : StateResponse :=
  {| sr_ID := tse_id tse;
     sr_Bundle := "";
     sr_Pid := uint32 (tse_pid tse);
     sr_ExitStatus := 255;
     sr_ExitedAt := Time_zero |}.

Definition testShimExec_Start (tse : testShimExec) : testShimExec * option error :=
  ({| tse_id := tse_id tse; tse_pid := tse_pid tse;
      tse_state := shimExecStateRunning |}, None).

Definition testShimExec_Kill (tse : testShimExec) (signal : Z)
  : testShimExec * option error :=
  ({| tse_id := tse_id tse; tse_pid := tse_pid tse;
      tse_state := shimExecStateExited |}, None).

#[global] Instance testShimExec_shimExec : shimExec testShimExec := {
  ID := tse_id;
  Pid := tse_pid;
  State := tse_state;
  Status := testShimExec_Status;
  Kill := testShimExec_Kill
}.

(** ** [sync.Map] keyed by exec identifier *)

Module syncMap.

Abbreviation t V := (list (string * V)).

Fixpoint Load {V : Type} (m : t V) (key : string) : option V :=
  match m with
  | [] => None
  | (k, v) :: rest => if decide (k = key) then Some v else Load rest key
  end.

Fixpoint Store {V : Type} (m : t V) (key : string) (value : V) : t V :=
  match m with
  | [] => [(key, value)]
  | (k, v) :: rest =>
      if decide (k = key) then (key, value) :: rest
      else (k, v) :: Store rest key value
  end.

Definition Delete {V : Type} (m : t V) (key : string) : t V :=
  filter (λ kv, kv.1 ≠ key) m.

(** [Range f] calls [f] on the entries one after the other and stops as soon
    as [f] returns [false].  The variables the Go closure captures are the
    accumulator. *)
Fixpoint Range {V A : Type} (f : string → V → A → A * bool) (m : t V) (acc : A) : A :=
  match m with
  | [] => acc
  | (k, v) :: rest =>
      let '(acc', continue) := f k v acc in
      if continue then Range f rest acc' else acc'
  end.

Definition keys {V : Type} (m : t V) : list string := m.*1.

End syncMap.

(** ** [errgroup.Group] *)

Module errgroup.

Definition Group : Type := option error.

Definition zero : Group := None.

Definition Go (g : Group) (r : option error) : Group :=
  match g with
  | Some e => Some e
  | None => r
  end.

Definition Wait (g : Group) : option error := g.

End errgroup.

(** ** Slices of strings *)

Definition loc : Type := positive.

(** The backing arrays, by address. *)
Abbreviation heap := (gmap loc (list string)).

Record slice : Type := mkSlice { s_ptr : loc; s_len : nat }.

(** The elements of a slice; a dangling slice reads as empty. *)
Definition slice_read (h : heap) (s : slice) : list string :=
  take (s_len s) (default [] (h !! s_ptr s)).

(** [make([]string, n)]: a fresh array of [n] empty strings. *)
Definition make (h : heap) (n : nat) : heap * slice :=
  let p := fresh (dom h) in
  (<[p := replicate n ""]> h, {| s_ptr := p; s_len := n |}).

(** [copy(dst, src)] copies [min(len(dst), len(src))] elements. *)
Definition copy (h : heap) (dst src : slice) : heap :=
  let n := Nat.min (s_len dst) (s_len src) in
  let from := take n (slice_read h src) in
  alter (λ arr, from ++ drop n arr) (s_ptr dst) h.

(** [s[i]]; [None] is the run-time panic on an index out of range. *)
Definition slice_index (h : heap) (s : slice) (i : Z) : option string :=
  if bool_decide (0 ≤ i < Z.of_nat (s_len s))%Z
  then slice_read h s !! Z.to_nat i
  else None.

(** [s[i] = v]; [None] is the run-time panic on an index out of range. *)
Definition slice_assign (h : heap) (s : slice) (i : Z) (v : string) : option heap :=
  if bool_decide (0 ≤ i < Z.of_nat (s_len s))%Z
  then Some (alter (λ arr, <[Z.to_nat i := v]> arr) (s_ptr s) h)
  else None.

(** ** Opaque collaborators of the task *)

Record UtilityVM : Type := mkUtilityVM { uvm_id : string }.
Record System : Type := mkSystem { sys_id : string; sys_host : option UtilityVM }.
Record Resources : Type := mkResources { res_id : string }.
Record Process : Type := mkProcess { proc_Args : list string }.
Record ioRelay : Type := mkRelay {
  rl_Stdin : string; rl_Stdout : string; rl_Stderr : string; rl_Terminal : bool
}.

Record ExecProcessRequest : Type := mkExecProcessRequest {
  epr_ExecID : string;
  epr_Stdin : string;
  epr_Stdout : string;
  epr_Stderr : string;
  epr_Terminal : bool
}.

Record CreateTaskRequest : Type := mkCreateTaskRequest {
  ctr_ID : string;
  ctr_Bundle : string;
  ctr_Rootfs : list string;
  ctr_Stdin : string;
  ctr_Stdout : string;
  ctr_Stderr : string;
  ctr_Terminal : bool
}.

(** The parts of [specs.Spec] the creation path reads. *)
Record WindowsNetwork : Type := mkWindowsNetwork { NetworkNamespace : string }.

Record Windows : Type := mkWindows {
  LayerFolders : slice;
  Network : option WindowsNetwork
}.

Record Spec : Type := mkSpec {
  Annotations : list (string * string);
  spec_Windows : option Windows;
  spec_Process : Process
}.

Record OptionsLCOW : Type := mkOptionsLCOW {
  lcow_ID : string;
  lcow_Owner : string
}.

Record OptionsWCOW : Type := mkOptionsWCOW {
  wcow_ID : string;
  wcow_Owner : string;
  wcow_LayerFolders : slice
}.

(** Modelled from the spec: [oci.SpecToUVMCreateOpts] is declared outside the
    sources at hand; the options it returns are of one of two kinds, one per
    guest kernel. *)
Inductive UVMOptions : Type :=
| optsLCOW (lopts : OptionsLCOW)
| optsWCOW (wopts : OptionsWCOW).

Inductive KubernetesContainerType : Type :=
| KubernetesContainerTypeNone
| KubernetesContainerTypeContainer
| KubernetesContainerTypeSandbox.

#[global] Instance KubernetesContainerType_eq_dec : EqDecision KubernetesContainerType.
Proof. solve_decision. Defined.

Record CreateOptions : Type := mkCreateOptions {
  co_ID : string;
  co_Owner : string;
  co_Spec : Spec;
  co_HostingSystem : option UtilityVM;
  co_NetworkNamespace : string
}.

(** Modelled from the spec: the package [internal/hcs] is outside the sources
    at hand; the operations of a container handle report the distinguished
    conditions pending, alreadyStopped and alreadyClosed. *)
Inductive hcsError : Type :=
| hcsPending
| hcsAlreadyStopped
| hcsAlreadyClosed
| hcsFailed (msg : string).

Definition IsPending (err : hcsError) : bool :=
  match err with hcsPending => true | _ => false end.

Definition IsAlreadyStopped (err : hcsError) : bool :=
  match err with hcsAlreadyStopped => true | _ => false end.

Definition IsAlreadyClosed (err : hcsError) : bool :=
  match err with hcsAlreadyClosed => true | _ => false end.

(** ** Events and effects *)

Inductive topic : Type :=
| TaskCreateEventTopic
| TaskExecAddedEventTopic
| TaskDeleteEventTopic.

Record TaskIO : Type := mkTaskIO {
  io_Stdin : string;
  io_Stdout : string;
  io_Stderr : string;
  io_Terminal : bool
}.

Inductive event : Type :=
| TaskCreate (ContainerID Bundle : string) (Rootfs : list string)
    (IO : TaskIO) (Checkpoint : string) (pid : Z)
| TaskExecAdded (ContainerID ExecID : string)
| TaskDelete (ContainerID ID_ : string) (pid ExitStatus : Z) (ExitedAt : Time).

Inductive effect : Type :=
(* [ht.events(topic, event)] *)
| Published (t : topic) (ev : event)
(* [Kill] on the exec stored under a key; the empty key is the init exec *)
| Signalled (eid : string) (signal : Z)
(* [ht.init.Wait] returned *)
| InitWaited
(* the container handle [ht.c] *)
| ContainerShutdown
| ContainerWaitTimeout (d : Duration)
| ContainerTerminate
| ContainerClose
(* [hcsoci.ReleaseResources(ht.cr, ht.host, all)] *)
| ResourcesReleased (r : option Resources) (vm : option UtilityVM) (all : bool)
(* the boundary *)
| BoundaryCreate (opts : UVMOptions)
| BoundaryStart (vm : UtilityVM)
| BoundaryClose (vm : UtilityVM)
(* [os.MkdirAll(path, perm)] *)
| MkdirAll (path : string) (perm : Z)
(* [hcsoci.CreateContainer(&opts)] *)
| ContainerCreate (opts : CreateOptions)
(* [go ht.waitForExit()] for the task of this id *)
| SequencerLaunched (tid : string)
(* a [logrus] line at error level *)
| LoggedError (msg : string).

(** The keys a trace delivered a signal to, in order. *)
Definition signalled (tr : list effect) : list string :=
  omap (λ x, match x with Signalled k _ => Some k | _ => None end) tr.

(** ** [hcsTask] *)

Record hcsTask (E : Type) : Type := mkHcsTask {
  id : string;
  isWCOW : bool;
  c : option System;
  cr : option Resources;
  init : E;
  ownsHost : bool;
  host : option UtilityVM;
  execs : syncMap.t E
}.

Arguments mkHcsTask {E}.
Arguments id {E}.
Arguments isWCOW {E}.
Arguments c {E}.
Arguments cr {E}.
Arguments init {E}.
Arguments ownsHost {E}.
Arguments host {E}.
Arguments execs {E}.

Definition set_execs {E : Type} (ht : hcsTask E) (m : syncMap.t E) : hcsTask E :=
  {| id := id ht; isWCOW := isWCOW ht; c := c ht; cr := cr ht;
     init := init ht; ownsHost := ownsHost ht; host := host ht;
     execs := m |}.

Definition set_init {E : Type} (ht : hcsTask E) (e : E) : hcsTask E :=
  {| id := id ht; isWCOW := isWCOW ht; c := c ht; cr := cr ht;
     init := e; ownsHost := ownsHost ht; host := host ht;
     execs := execs ht |}.

(** The exec a [shimExec] value points to is stored either in [init] or in
    the registry: writing through the pointer updates it there. *)
Definition write_exec {E : Type} (ht : hcsTask E) (eid : string) (e : E) : hcsTask E :=
  if decide (eid = "") then set_init ht e
  else set_execs ht (syncMap.Store (execs ht) eid e).

(** What the collaborators used while creating execs and tasks answer. *)
Record constructors (E : Type) : Type := mkConstructors {
  (* [newRelay(ctx, stdin, stdout, stderr, terminal)] *)
  newRelay : string → string → string → bool → ioRelay + error;
  (* [newHcsExec(ctx, events, tid, host, c, id, bundle, isWCOW, spec, io)] *)
  newHcsExec :
    string → option UtilityVM → option System → string → string → bool →
    Process → ioRelay → E
}.

Arguments newRelay {E}.
Arguments newHcsExec {E}.

Section task.
Context {E : Type} {HE : shimExec E}.
Variable K : constructors E.

Definition hcsTask_ID (ht : hcsTask E) : string := id ht.

Definition CreateExec (ht : hcsTask E) (req : ExecProcessRequest) (spec : Process)
  : option error * hcsTask E * list effect :=
  if bool_decide (is_Some (syncMap.Load (execs ht) (epr_ExecID req)))
     || bool_decide (epr_ExecID req = "")
  then (Some ErrAlreadyExists, ht, [])
  else if bool_decide (State (init ht) ≠ shimExecStateRunning)
  then (Some ErrFailedPrecondition, ht, [])
  else
    match newRelay K (epr_Stdin req) (epr_Stdout req) (epr_Stderr req)
                   (epr_Terminal req) with
    | inr err => (Some err, ht, [])
    | inl io =>
        let he := newHcsExec K (id ht) (host ht) (c ht) (epr_ExecID req)
                    (sr_Bundle (Status (init ht))) (isWCOW ht) spec io in
        (None,
         set_execs ht (syncMap.Store (execs ht) (epr_ExecID req) he),
         [Published TaskExecAddedEventTopic
            (TaskExecAdded (id ht) (epr_ExecID req))])
    end.

Definition GetExec (ht : hcsTask E) (eid : string) : E + error :=
  if decide (eid = "") then inl (init ht)
  else
    match syncMap.Load (execs ht) eid with
    | None => inr ErrNotFound
    | Some raw => inl raw
    end.

(** The closure of the first [Range] of [KillExec]: start a goroutine that
    kills the exec, then [return false]. *)
Definition kill_each (signal : Z) (key : string) (ex : E)
    (acc : syncMap.t E * errgroup.Group * list effect)
  : syncMap.t E * errgroup.Group * list effect * bool :=
  let '(m, eg, tr) := acc in
  let '(ex', r) := Kill ex signal in
  (syncMap.Store m key ex', errgroup.Go eg r, tr ++ [Signalled key signal], false).

(** The closure of the [Range] that [KillExec] and [DeleteExec] run before
    they touch the init exec: on an exec that has not exited set [invalid]
    and [return true], otherwise [return false]. *)
Definition check_exited (key : string) (ex : E) (invalid : bool) : bool * bool :=
  if bool_decide (State ex ≠ shimExecStateExited) then (true, true)
  else (invalid, false).

Definition KillExec (ht : hcsTask E) (eid : string) (signal : Z) (all : bool)
  : option error * hcsTask E * list effect :=
  match GetExec ht eid with
  | inr err => (Some err, ht, [])
  | inl e =>
      if all && bool_decide (eid ≠ "")
      then (Some ErrFailedPrecondition, ht, [])
      else
        let eg := errgroup.zero in
        let started : option (hcsTask E * errgroup.Group * list effect) :=
          if all then
            let '(m, eg', tr) :=
              syncMap.Range (kill_each signal) (execs ht) (execs ht, eg, []) in
            Some (set_execs ht m, eg', tr)
          else if bool_decide (eid = "") then
            let invalid := syncMap.Range check_exited (execs ht) false in
            if invalid then None else Some (ht, eg, [])
          else Some (ht, eg, [])
        in
        match started with
        | None => (Some ErrFailedPrecondition, ht, [])
        | Some (ht1, eg1, tr) =>
            let '(e', r) := Kill e signal in
            let eg2 := errgroup.Go eg1 r in
            (errgroup.Wait eg2, write_exec ht1 eid e',
             tr ++ [Signalled eid signal])
        end
  end.

Definition DeleteExec (ht : hcsTask E) (eid : string)
  : Z * Z * Time * option error * hcsTask E * list effect :=
  match GetExec ht eid with
  | inr err => (0, 0, Time_zero, Some err, ht, [])
  | inl e =>
      if bool_decide (eid = "")
         && syncMap.Range check_exited (execs ht) false
      then (0, 0, Time_zero, Some ErrFailedPrecondition, ht, [])
      else
        let state := State e in
        if bool_decide (state ≠ shimExecStateExited)
        then (0, 0, Time_zero,
              Some (newExecInvalidStateError (id ht) eid state "delete"), ht, [])
        else
          let status := Status e in
          let ht' :=
            if bool_decide (eid ≠ "")
            then set_execs ht (syncMap.Delete (execs ht) eid) else ht in
          (int (sr_Pid status), sr_ExitStatus status, sr_ExitedAt status, None,
           ht',
           [Published TaskDeleteEventTopic
              (TaskDelete (id ht) eid (sr_Pid status) (sr_ExitStatus status)
                 (sr_ExitedAt status))])
  end.

(** [shimTaskPidPair] is a pair of a pid and an exec identifier. *)
Definition Pids (ht : hcsTask E) : list (Z * string) * option error :=
  ([], Some ErrNotImplemented).

End task.

(** ** The test double [testShimTask] *)

Record testShimTask : Type := mkTestShimTask {
  tst_id : string;
  tst_exec : testShimExec;
  (* a Go map, in the order a [range] over it visits the entries *)
  tst_execs : list (string * testShimExec)
}.

Definition testShimTask_GetExec (tst : testShimTask) (eid : string)
  : testShimExec + error :=
  if decide (eid = "") then inl (tst_exec tst)
  else
    match syncMap.Load (tst_execs tst) eid with
    | Some e => inl e
    | None => inr ErrNotFound
    end.

Definition testShimTask_Pids (tst : testShimTask) : list (Z * string) * option error :=
  let pairs := [(Pid (tst_exec tst), ID (tst_exec tst))] in
  (foldl (λ pairs kp, pairs ++ [(tse_pid kp.2, tse_id kp.2)]) pairs (tst_execs tst),
   None).

(** ** The teardown sequencer [waitForExit] *)

(** What the container handle, the resource releaser and the boundary answer
    during one run of the sequencer. *)
Record engine : Type := mkEngine {
  Shutdown : option hcsError;
  WaitTimeout : Duration → option hcsError;
  Terminate : option hcsError;
  ReleaseResources : option error;
  Close : option hcsError;
  host_Close : option error
}.

Definition shutdownTimeout : Duration := time_Minute * 5.
Definition terminateTimeout : Duration := time_Second * 30.

(** The body of [if err := ht.c.Terminate(); err != nil && !IsAlreadyStopped(err)]. *)
Definition afterTerminate (G : engine) : list effect :=
  match Terminate G with
  | Some err =>
      if negb (IsAlreadyStopped err) then
        if negb (IsPending err)
        then [LoggedError "hcsTask::close - failed to terminate container"]
        else
          ContainerWaitTimeout terminateTimeout ::
          match WaitTimeout G terminateTimeout with
          | Some _ =>
              [LoggedError "hcsTask::close - failed to wait for container terminate"]
          | None => []
          end
      else []
  | None => []
  end.

(** The body of [if err := ht.c.Shutdown(); err != nil]. *)
Definition afterShutdown (G : engine) : list effect :=
  match Shutdown G with
  | Some err =>
      (if negb (IsPending err)
       then [LoggedError "hcsTask::close - failed to shutdown container"]
       else
         ContainerWaitTimeout shutdownTimeout ::
         match WaitTimeout G shutdownTimeout with
         | Some _ =>
             [LoggedError "hcsTask::close - failed to wait for container shutdown"]
         | None => []
         end)
      ++ ContainerTerminate :: afterTerminate G
  | None => []
  end.

(** The body of [if ht.c != nil]. *)
Definition closeContainer {E : Type} (G : engine) (ht : hcsTask E) : list effect :=
  ContainerShutdown :: afterShutdown G
  ++ ResourcesReleased (cr ht) (host ht) true ::
     match ReleaseResources G with
     | Some _ =>
         [LoggedError "hcsTask::close - failed to release container resources"]
     | None => []
     end
  ++ ContainerClose ::
     match Close G with
     | Some err =>
         if negb (IsAlreadyClosed err)
         then [LoggedError "hcsTask::close - failed to close container"]
         else []
     | None => []
     end.

(** The body of [if ht.ownsHost && ht.host != nil]. *)
Definition closeHost {E : Type} (G : engine) (ht : hcsTask E) : list effect :=
  match host ht with
  | Some vm =>
      if ownsHost ht then
        BoundaryClose vm ::
        match host_Close G with
        | Some _ => [LoggedError "hcsTask::close - failed host vm shutdown"]
        | None => []
        end
      else []
  | None => []
  end.

Definition waitForExit {E : Type} (G : engine) (ht : hcsTask E) : list effect :=
  InitWaited ::
  match c ht with
  | Some _ => closeContainer G ht
  | None => []
  end
  ++ closeHost G ht.

(** ** Task creation: [newHcsTask] and [newHcsStandaloneTask] *)

(** What the collaborators of the creation path answer. *)
Record provisioner : Type := mkProvisioner {
  (* [oci.GetSandboxTypeAndID(annotations)] *)
  GetSandboxTypeAndID :
    list (string * string) → KubernetesContainerType * string + error;
  (* [osversion.Get().Build] and [osversion.RS5] *)
  osversion_Build : Z;
  osversion_RS5 : Z;
  (* [oci.IsIsolated(s)], [oci.IsWCOW(s)] *)
  IsIsolated : Spec → bool;
  IsWCOW : Spec → bool;
  (* [oci.SpecToUVMCreateOpts(s, id, owner)] *)
  SpecToUVMCreateOpts : Spec → string → string → UVMOptions + error;
  (* [uvm.CreateLCOW(opts)], [uvm.CreateWCOW(opts)] *)
  CreateLCOW : OptionsLCOW → UtilityVM + error;
  CreateWCOW : OptionsWCOW → UtilityVM + error;
  (* [parent.Start()] *)
  uvm_Start : UtilityVM → option error;
  (* [os.MkdirAll(path, perm)] *)
  os_MkdirAll : string → Z → option error;
  (* [os.Args[0]], [os.Executable()] *)
  os_Args0 : string;
  os_Executable : string + error;
  (* [filepath.Base(path)], [filepath.Join(a, b)] *)
  filepath_Base : string → string;
  filepath_Join : string → string → string;
  (* [hcsoci.CreateContainer(&opts)] *)
  CreateContainer : CreateOptions → System * Resources + error
}.

(** How one stage of a function ends: it falls through with a value, it
    executes [return nil, err], or it panics. *)
Inductive stage (A : Type) : Type :=
| Continue (a : A)
| ReturnErr (err : error)
| Panic.

Arguments Continue {A}.
Arguments ReturnErr {A}.
Arguments Panic {A}.

(** How [newHcsStandaloneTask] ends: with the pair it returns, or panicking. *)
Inductive outcome (A : Type) : Type :=
| Returned (shim : option A) (err : option error)
| Panicked.

Arguments Returned {A}.
Arguments Panicked {A}.

Section creation.
Context {E : Type} {HE : shimExec E}.
Variable P : provisioner.
Variable K : constructors E.

Definition newHcsTask (parent : option UtilityVM) (ownsParent : bool)
    (req : CreateTaskRequest) (s : Spec)
  : option (hcsTask E) * option error * list effect :=
  match os_Executable P with
  | inr err => (None, Some err, [])
  | inl owner =>
      match newRelay K (ctr_Stdin req) (ctr_Stdout req) (ctr_Stderr req)
                     (ctr_Terminal req) with
      | inr err => (None, Some err, [])
      | inl io =>
          let netNS :=
            match spec_Windows s with
            | Some w =>
                match Network w with
                | Some n => NetworkNamespace n
                | None => ""
                end
            | None => ""
            end in
          let opts :=
            {| co_ID := ctr_ID req; co_Owner := owner; co_Spec := s;
               co_HostingSystem := parent; co_NetworkNamespace := netNS |} in
          match CreateContainer P opts with
          | inr err => (None, Some err, [ContainerCreate opts])
          | inl (system, resources) =>
              let wcow := IsWCOW P s in
              let ht :=
                {| id := ctr_ID req; isWCOW := wcow; c := Some system;
                   cr := Some resources; ownsHost := ownsParent; host := parent;
                   init := newHcsExec K (ctr_ID req) parent (Some system)
                             (ctr_ID req) (ctr_Bundle req) wcow
                             (spec_Process s) io;
                   execs := [] |} in
              (Some ht, None,
               [ContainerCreate opts;
                SequencerLaunched (id ht);
                Published TaskCreateEventTopic
                  (TaskCreate (ctr_ID req) (ctr_Bundle req) (ctr_Rootfs req)
                     {| io_Stdin := ctr_Stdin req; io_Stdout := ctr_Stdout req;
                        io_Stderr := ctr_Stderr req;
                        io_Terminal := ctr_Terminal req |}
                     "" (uint32 (Pid (init ht))))])
          end
      end
  end.

(** [case *uvm.OptionsWCOW] of the switch on the kind of options. *)
Definition createWCOW (h : heap) (s : Spec) (wopts : OptionsWCOW)
  : stage UtilityVM * heap * list effect :=
  match spec_Windows s with
  | None => (Panic, h, [])
  | Some w =>
      let layersLen := s_len (LayerFolders w) in
      let '(h1, layers) := make h layersLen in
      let h2 := copy h1 layers (LayerFolders w) in
      match slice_index h2 layers (Z.of_nat layersLen - 1) with
      | None => (Panic, h2, [])
      | Some last =>
          let vmPath := filepath_Join P last "vm" in
          match os_MkdirAll P vmPath 0 with
          | Some err => (ReturnErr err, h2, [MkdirAll vmPath 0])
          | None =>
              match slice_assign h2 layers (Z.of_nat layersLen - 1) vmPath with
              | None => (Panic, h2, [MkdirAll vmPath 0])
              | Some h3 =>
                  let wopts' :=
                    {| wcow_ID := wcow_ID wopts; wcow_Owner := wcow_Owner wopts;
                       wcow_LayerFolders := layers |} in
                  let tr := [MkdirAll vmPath 0; BoundaryCreate (optsWCOW wopts')] in
                  match CreateWCOW P wopts' with
                  | inr err => (ReturnErr err, h3, tr)
                  | inl parent => (Continue parent, h3, tr)
                  end
              end
          end
      end
  end.

(** [case *uvm.OptionsLCOW] of the switch on the kind of options. *)
Definition createLCOW (h : heap) (lopts : OptionsLCOW)
  : stage UtilityVM * heap * list effect :=
  match CreateLCOW P lopts with
  | inr err => (ReturnErr err, h, [BoundaryCreate (optsLCOW lopts)])
  | inl parent => (Continue parent, h, [BoundaryCreate (optsLCOW lopts)])
  end.

(** The statement [if osversion.Get().Build >= osversion.RS5 && oci.IsIsolated(s)
    { ... } else if !oci.IsWCOW(s) { ... }]; it leaves [parent] behind. *)
Definition provision (h : heap) (req : CreateTaskRequest) (s : Spec) (owner : string)
  : stage (option UtilityVM) * heap * list effect :=
  if bool_decide (osversion_RS5 P ≤ osversion_Build P)%Z && IsIsolated P s then
    match SpecToUVMCreateOpts P s (ctr_ID req ++ "@vm")%string owner with
    | inr err => (ReturnErr err, h, [])
    | inl opts =>
        let '(created, h1, tr) :=
          match opts with
          | optsLCOW lopts => createLCOW h lopts
          | optsWCOW wopts => createWCOW h s wopts
          end in
        match created with
        | ReturnErr err => (ReturnErr err, h1, tr)
        | Panic => (Panic, h1, tr)
        | Continue parent =>
            match uvm_Start P parent with
            | Some err =>
                (Continue (Some parent), h1,
                 tr ++ [BoundaryStart parent; BoundaryClose parent])
            | None => (Continue (Some parent), h1, tr ++ [BoundaryStart parent])
            end
        end
    end
  else if negb (IsWCOW P s) then (ReturnErr ErrFailedPrecondition, h, [])
  else (Continue None, h, []).

Definition newHcsStandaloneTask (h : heap) (req : CreateTaskRequest) (s : Spec)
  : outcome (hcsTask E) * heap * list effect :=
  match GetSandboxTypeAndID P (Annotations s) with
  | inr err => (Returned None (Some err), h, [])
  | inl (ct, _) =>
      if bool_decide (ct ≠ KubernetesContainerTypeNone)
      then (Returned None (Some ErrFailedPrecondition), h, [])
      else
        let owner := filepath_Base P (os_Args0 P) in
        match provision h req s owner with
        | (ReturnErr err, h1, tr) => (Returned None (Some err), h1, tr)
        | (Panic, h1, tr) => (Panicked, h1, tr)
        | (Continue parent, h1, tr) =>
            match newHcsTask parent true req s with
            | (_, Some err, tr2) =>
                (Returned None (Some err), h1,
                 tr ++ tr2 ++
                 match parent with
                 | Some vm => [BoundaryClose vm]
                 | None => []
                 end)
            | (shim, None, tr2) => (Returned shim None, h1, tr ++ tr2)
            end
        end
  end.

End creation.

(** ** Statements about the registry operations, as predicates *)

Section statements.
Context {E : Type} {HE : shimExec E}.

(** Every exec of a registry has exited. *)
Definition all_exited (m : syncMap.t E) : Prop :=
  Forall (λ kv, State kv.2 = shimExecStateExited) m.

(** An operation was refused as a precondition violation and changed nothing. *)
Definition rejected (ht : hcsTask E)
    (r : option error * hcsTask E * list effect) : Prop :=
  r = (Some ErrFailedPrecondition, ht, []).

(** [DeleteExec ht eid] was refused as a precondition violation and changed
    nothing. *)
Definition delete_rejected (ht : hcsTask E)
    (r : Z * Z * Time * option error * hcsTask E * list effect) : Prop :=
  let '(_, _, _, err, ht', tr) := r in
  err = Some ErrFailedPrecondition ∧ ht' = ht ∧ tr = [].

(** [DeleteExec ht eid] on the exec [e] succeeded: it returned what [e]
    reports as its pid, exit status and exit time, it took [eid] out of the
    registry if [eid] is not empty and left every other entry and the init
    exec alone, and it published one task-delete event with those values. *)
Definition delete_done (ht : hcsTask E) (eid : string) (e : E)
    (r : Z * Z * Time * option error * hcsTask E * list effect) : Prop :=
  let '(pid, exitStatus, exitedAt, err, ht', tr) := r in
  err = None
  ∧ pid = int (sr_Pid (Status e))
  ∧ exitStatus = sr_ExitStatus (Status e)
  ∧ exitedAt = sr_ExitedAt (Status e)
  ∧ init ht' = init ht
  ∧ (∀ k, syncMap.Load (execs ht') k =
           if decide (k = eid ∧ eid ≠ "") then None
           else syncMap.Load (execs ht) k)
  ∧ tr = [Published TaskDeleteEventTopic
            (TaskDelete (id ht) eid (sr_Pid (Status e))
               (sr_ExitStatus (Status e)) (sr_ExitedAt (Status e)))].

(** The contract of [DeleteExec] on an existing exec, without the extra
    condition on the children of the init exec. *)
Definition DeleteExec_contract (ht : hcsTask E) (eid : string) : Prop :=
  ∀ e, GetExec ht eid = inl e →
    (State e ≠ shimExecStateExited → delete_rejected ht (DeleteExec ht eid))
    ∧ (State e = shimExecStateExited → delete_done ht eid e (DeleteExec ht eid)).

End statements.

(** ** Fixtures built from the test doubles *)

Definition testConstructors : constructors testShimExec :=
  {| newRelay := λ stdin stdout stderr terminal,
       inl (mkRelay stdin stdout stderr terminal);
     newHcsExec := λ tid host c id bundle isWCOW spec io,
       mkTestShimExec id 0 shimExecStateCreated |}.

Definition testExec (id : string) (pid : Z) (st : shimExecState) : testShimExec :=
  {| tse_id := id; tse_pid := pid; tse_state := st |}.

(** A task "t1" without container handle and boundary, as the tests build it,
    whose init exec (pid 100) is in state [st] and whose registry is [m]. *)
Definition testTask (st : shimExecState) (m : syncMap.t testShimExec)
  : hcsTask testShimExec :=
  {| id := "t1"; isWCOW := true; c := None; cr := None;
     init := testExec "t1" 100 st; ownsHost := true; host := None;
     execs := m |}.

Definition twoRunning : syncMap.t testShimExec :=
  [("e1", testExec "e1" 101 shimExecStateRunning);
   ("e2", testExec "e2" 102 shimExecStateRunning)].

Definition exitedThenRunning : syncMap.t testShimExec :=
  [("e1", testExec "e1" 101 shimExecStateExited);
   ("e2", testExec "e2" 102 shimExecStateRunning)].

Definition oneRunning : syncMap.t testShimExec :=
  [("e1", testExec "e1" 101 shimExecStateRunning)].

Definition oneExited : syncMap.t testShimExec :=
  [("e1", testExec "e1" 101 shimExecStateExited)].

(** A task with a container handle and an owned boundary. *)
Definition testVM : UtilityVM := {| uvm_id := "t1@vm" |}.

Definition isolatedTask : hcsTask testShimExec :=
  {| id := "t1"; isWCOW := false;
     c := Some {| sys_id := "t1"; sys_host := Some testVM |};
     cr := Some {| res_id := "t1" |};
     init := testExec "t1" 100 shimExecStateExited;
     ownsHost := true; host := Some testVM; execs := [] |}.

(** An engine whose graceful shutdown reports pending and completes within
    the wait, and where everything else succeeds. *)
Definition pendingShutdown : engine :=
  {| Shutdown := Some hcsPending; WaitTimeout := λ _, None; Terminate := None;
     ReleaseResources := None; Close := None; host_Close := None |}.

(** An engine whose shutdown fails and whose terminate reports pending. *)
Definition pendingTerminate : engine :=
  {| Shutdown := Some (hcsFailed "shutdown"); WaitTimeout := λ _, None;
     Terminate := Some hcsPending;
     ReleaseResources := None; Close := None; host_Close := None |}.

Definition set_Terminate (G : engine) (r : option hcsError) : engine :=
  {| Shutdown := Shutdown G; WaitTimeout := WaitTimeout G; Terminate := r;
     ReleaseResources := ReleaseResources G; Close := Close G;
     host_Close := host_Close G |}.

(** A slice is backed by an array of the heap that is long enough. *)
Definition valid_slice (h : heap) (s : slice) : Prop :=
  ∃ arr, h !! s_ptr s = Some arr ∧ (s_len s ≤ length arr)%nat.

(** Collaborators for the creation path that all succeed, except that
    starting the boundary answers [start]; [wcow] selects the guest kernel. *)
Definition testProvisioner (wcow : bool) (start : option error) : provisioner :=
  {| GetSandboxTypeAndID := λ _, inl (KubernetesContainerTypeNone, "");
     osversion_Build := 17763;
     osversion_RS5 := 17763;
     IsIsolated := λ _, true;
     IsWCOW := λ _, wcow;
     SpecToUVMCreateOpts := λ s id owner,
       inl (if wcow
            then optsWCOW {| wcow_ID := id; wcow_Owner := owner;
                             wcow_LayerFolders :=
                               match spec_Windows s with
                               | Some w => LayerFolders w
                               | None => {| s_ptr := 1%positive; s_len := 0 |}
                               end |}
            else optsLCOW {| lcow_ID := id; lcow_Owner := owner |});
     CreateLCOW := λ o, inl {| uvm_id := lcow_ID o |};
     CreateWCOW := λ o, inl {| uvm_id := wcow_ID o |};
     uvm_Start := λ _, start;
     os_MkdirAll := λ _ _, None;
     os_Args0 := "containerd-shim-runhcs-v1.exe";
     os_Executable := inl "containerd-shim-runhcs-v1.exe";
     filepath_Base := λ path, path;
     filepath_Join := λ a b, (a ++ "\" ++ b)%string;
     CreateContainer := λ o,
       inl ({| sys_id := co_ID o; sys_host := co_HostingSystem o |},
            {| res_id := co_ID o |}) |}.

Definition testRequest : CreateTaskRequest :=
  {| ctr_ID := "t1"; ctr_Bundle := "C:\bundle"; ctr_Rootfs := [];
     ctr_Stdin := ""; ctr_Stdout := ""; ctr_Stderr := ""; ctr_Terminal := false |}.

Definition lcowSpec : Spec :=
  {| Annotations := []; spec_Windows := None;
     spec_Process := {| proc_Args := ["sh"] |} |}.

(** A Windows specification whose two layer folders are the array at
    address 1 of [wcowHeap]. *)
Definition wcowLayers : slice := {| s_ptr := 1%positive; s_len := 2 |}.

Definition wcowHeap : heap := {[ 1%positive := ["C:\layers\base"; "C:\layers\scratch"] ]}.

Definition wcowSpec : Spec :=
  {| Annotations := [];
     spec_Windows := Some {| LayerFolders := wcowLayers; Network := None |};
     spec_Process := {| proc_Args := ["cmd"] |} |}.

(** ** Statements about the teardown sequence, as predicates *)

Definition is_log (x : effect) : Prop :=
  match x with LoggedError _ => True | _ => False end.

Definition is_wait_or_log (x : effect) : Prop :=
  match x with LoggedError _ | ContainerWaitTimeout _ => True | _ => False end.

(** Forced terminate is attempted exactly when the graceful shutdown was
    attempted and failed for a reason other than pending. *)
Definition terminate_iff_not_pending {E : Type} (G : engine) (ht : hcsTask E) : Prop :=
  ContainerTerminate ∈ waitForExit G ht ↔
  ContainerShutdown ∈ waitForExit G ht
  ∧ ∃ err, Shutdown G = Some err ∧ IsPending err = false.

(** Whenever the boundary is closed, the shutdown of the container, the
    release of its resources and the close of its handle have been performed
    before. *)
Definition boundary_after_container {E : Type} (G : engine) (ht : hcsTask E) : Prop :=
  ∀ pre vm post,
    waitForExit G ht = pre ++ BoundaryClose vm :: post →
    ContainerShutdown ∈ pre
    ∧ ResourcesReleased (cr ht) (host ht) true ∈ pre
    ∧ ContainerClose ∈ pre.

(** ** The rest of the test doubles *)

Definition testShimExec_Wait (tse : testShimExec) : StateResponse :=
  testShimExec_Status tse.

Definition tst_set_exec (tst : testShimTask) (e : testShimExec) : testShimTask :=
  {| tst_id := tst_id tst; tst_exec := e; tst_execs := tst_execs tst |}.

Definition tst_set_execs (tst : testShimTask) (m : list (string * testShimExec))
  : testShimTask :=
  {| tst_id := tst_id tst; tst_exec := tst_exec tst; tst_execs := m |}.

(** [Kill] writes through the pointer [GetExec] returned: the exec changes
    where the task holds it. *)
Definition testShimTask_KillExec (tst : testShimTask) (eid : string) (signal : Z)
    (all : bool) : option error * testShimTask :=
  match testShimTask_GetExec tst eid with
  | inr err => (Some err, tst)
  | inl e =>
      let '(e', r) := testShimExec_Kill e signal in
      (r, if decide (eid = "") then tst_set_exec tst e'
          else tst_set_execs tst (syncMap.Store (tst_execs tst) eid e'))
  end.

Definition testShimTask_DeleteExec (tst : testShimTask) (eid : string)
  : Z * Z * Time * option error * testShimTask :=
  match testShimTask_GetExec tst eid with
  | inr err => (0, 0, Time_zero, Some err, tst)
  | inl e =>
      let status := testShimExec_Status e in
      let tst' :=
        if bool_decide (eid ≠ "")
        then tst_set_execs tst (syncMap.Delete (tst_execs tst) eid) else tst in
      (int (sr_Pid status), sr_ExitStatus status, sr_ExitedAt status, None, tst')
  end.

(** ** Observations on registries and traces *)

(** No identifier is stored twice and the empty identifier, which names the
    init exec, is not stored. *)
Definition registry_ok {E : Type} (m : syncMap.t E) : Prop :=
  NoDup (syncMap.keys m) ∧ "" ∉ syncMap.keys m.

Definition is_stage (x : effect) : bool :=
  match x with
  | ContainerShutdown | ResourcesReleased _ _ _ | ContainerClose
  | BoundaryClose _ => true
  | _ => false
  end.

(** The teardown stages of a trace, in order, without the waits, the forced
    terminate and the log lines between them. *)
Definition stages (tr : list effect) : list effect := List.filter is_stage tr.

(** The bounds of the waits of a trace, in order. *)
Definition waits (tr : list effect) : list Duration :=
  omap (λ x, match x with ContainerWaitTimeout d => Some d | _ => None end) tr.

Definition is_boundary_effect (x : effect) : bool :=
  match x with
  | BoundaryCreate _ | BoundaryStart _ | BoundaryClose _ | MkdirAll _ _ => true
  | _ => false
  end.

(** A request for an exec that leaves the streams unset. *)
Definition execRequest (eid : string) : ExecProcessRequest :=
  {| epr_ExecID := eid; epr_Stdin := ""; epr_Stdout := ""; epr_Stderr := "";
     epr_Terminal := false |}.

(** An engine where every call succeeds. *)
Definition quietEngine : engine :=
  {| Shutdown := None; WaitTimeout := λ _, None; Terminate := None;
     ReleaseResources := None; Close := None; host_Close := None |}.

(** An engine where every call fails and every wait times out. *)
Definition brokenEngine : engine :=
  {| Shutdown := Some hcsPending; WaitTimeout := λ _, Some (hcsFailed "timeout");
     Terminate := Some hcsPending;
     ReleaseResources := Some (ErrExternal "release");
     Close := Some (hcsFailed "close");
     host_Close := Some (ErrExternal "close") |}.

(** The time a trace may spend waiting at most. *)
Definition total_wait (tr : list effect) : Duration := foldr Z.add 0 (waits tr).

(** The effects that come before a boundary is started. *)
Definition is_provisioning (x : effect) : Prop :=
  match x with MkdirAll _ _ | BoundaryCreate _ => True | _ => False end.

(** ** VPMEM slots of a utility VM (package [uvm]) *)

Module uvm.

Inductive error : Type :=
| errNotSupported
| ErrNoAvailableLocation
| ErrNotAttached
| ErrMaxVPMEMLayerSize
(* [vm.ErrNotSupported], wrapped *)
| vm_ErrNotSupported
(* whatever a collaborator hands back *)
| ErrFrom (msg : string).

(** What a function returns, or the run-time panic of an index that is out
    of range or of a nil pointer that is followed. *)
Inductive result (A : Type) : Type :=
| Ok (a : A)
| Err (e : error)
| IndexPanic.

Arguments Ok {A}.
Arguments Err {A}.
Arguments IndexPanic {A}.

Definition uint64 (n : Z) : Z := n mod 2 ^ 64.

Record vpmemInfo : Type := mkVpmemInfo {
  hostPath : string;
  uvmPath : string;
  refCount : Z
}.

(** The fields of [UtilityVM] the VPMEM functions use.  The declaration is
    outside the sources at hand: [vpmemDevices] is taken as an array of
    pointers, [nil] being [None], and [refCount] as a [uint32]. *)
Record UtilityVM : Type := mkUtilityVM {
  operatingSystem : string;
  vpmemMaxCount : Z;
  vpmemMaxSizeBytes : Z;
  vpmemDevices : list (option vpmemInfo)
}.

Definition set_device (u : UtilityVM) (i : Z) (d : option vpmemInfo) : UtilityVM :=
  {| operatingSystem := operatingSystem u;
     vpmemMaxCount := vpmemMaxCount u;
     vpmemMaxSizeBytes := vpmemMaxSizeBytes u;
     vpmemDevices := <[Z.to_nat i := d]> (vpmemDevices u) |}.

Definition lcowVPMEMLayerFmt (deviceNumber : Z) : string :=
  "/run/layers/p" +:+ pretty deviceNumber.

(** [for i := uint32(0); i < uvm.vpmemMaxCount; i++], from [i] on with [n]
    rounds to go. *)
Fixpoint findNext_loop (devs : list (option vpmemInfo)) (i n : nat) : result Z :=
  match n with
  | O => Err ErrNoAvailableLocation
  | S n' =>
      match devs !! i with
      | None => IndexPanic
      | Some None => Ok (Z.of_nat i)
      | Some (Some _) => findNext_loop devs (S i) n'
      end
  end.

Definition findNextVPMEM (u : UtilityVM) (hostPath : string) : result Z :=
  findNext_loop (vpmemDevices u) 0 (Z.to_nat (vpmemMaxCount u)).

Fixpoint findDevice_loop (devs : list (option vpmemInfo)) (findThisHostPath : string)
    (i n : nat) : result Z :=
  match n with
  | O => Err ErrNotAttached
  | S n' =>
      match devs !! i with
      | None => IndexPanic
      | Some (Some vi) =>
          if bool_decide (hostPath vi = findThisHostPath) then Ok (Z.of_nat i)
          else findDevice_loop devs findThisHostPath (S i) n'
      | Some None => findDevice_loop devs findThisHostPath (S i) n'
      end
  end.

Definition findVPMEMDevice (u : UtilityVM) (findThisHostPath : string) : result Z :=
  findDevice_loop (vpmemDevices u) findThisHostPath 0 (Z.to_nat (vpmemMaxCount u)).

Inductive requestType : Type := Add | Remove.

(** A [guestrequest.GuestRequest] for a VPMEM device. *)
Record guestRequest : Type := mkGuestRequest {
  RequestType : requestType;
  DeviceNumber : Z;
  MountPath : string
}.

(** What the file system, the virtual machine and the guest answer. *)
Record host : Type := mkHost {
  (* [os.Stat(path)]: the size of the file *)
  os_Stat : string → Z + error;
  (* [uvm.vm.(vm.VPMemManager)] holds *)
  VPMemManager : bool;
  (* [uvm.vm.Supported(vm.VPMem, op)] *)
  Supported : requestType → bool;
  AddVPMemDevice : Z → string → option error;
  RemoveVPMemDevice : Z → string → option error;
  GuestRequest : guestRequest → option error
}.

Inductive effect : Type :=
| HostAdd (deviceNumber : Z) (path : string)
| HostRemove (deviceNumber : Z) (path : string)
| GuestReq (req : guestRequest).

Definition AddVPMEM (H : host) (u : UtilityVM) (hostPath_ : string)
  : result string * UtilityVM * list effect :=
  if bool_decide (operatingSystem u ≠ "linux") then (Err errNotSupported, u, [])
  else
    match findVPMEMDevice u hostPath_ with
    | IndexPanic => (IndexPanic, u, [])
    | Err _ =>
        match os_Stat H hostPath_ with
        | inr err => (Err err, u, [])
        | inl size =>
            if bool_decide (vpmemMaxSizeBytes u < uint64 size)%Z
            then (Err ErrMaxVPMEMLayerSize, u, [])
            else
              match findNextVPMEM u hostPath_ with
              | IndexPanic => (IndexPanic, u, [])
              | Err err => (Err err, u, [])
              | Ok deviceNumber =>
                  if negb (VPMemManager H) || negb (Supported H Add)
                  then (Err vm_ErrNotSupported, u, [])
                  else
                    match AddVPMemDevice H deviceNumber hostPath_ with
                    | Some err => (Err err, u, [HostAdd deviceNumber hostPath_])
                    | None =>
                        let uvmPath_ := lcowVPMEMLayerFmt deviceNumber in
                        let guestReq :=
                          {| RequestType := Add; DeviceNumber := deviceNumber;
                             MountPath := uvmPath_ |} in
                        match GuestRequest H guestReq with
                        | Some err =>
                            (Err err, u,
                             [HostAdd deviceNumber hostPath_; GuestReq guestReq])
                        | None =>
                            (Ok uvmPath_,
                             set_device u deviceNumber
                               (Some {| hostPath := hostPath_; uvmPath := uvmPath_;
                                        refCount := 1 |}),
                             [HostAdd deviceNumber hostPath_; GuestReq guestReq])
                        end
                    end
              end
        end
    | Ok deviceNumber =>
        match vpmemDevices u !! Z.to_nat deviceNumber with
        | Some (Some device) =>
            (Ok (uvmPath device),
             set_device u deviceNumber
               (Some {| hostPath := hostPath device; uvmPath := uvmPath device;
                        refCount := uint32 (refCount device + 1) |}),
             [])
        | _ => (IndexPanic, u, [])
        end
    end.

Definition RemoveVPMEM (H : host) (u : UtilityVM) (hostPath_ : string)
  : result unit * UtilityVM * list effect :=
  if bool_decide (operatingSystem u ≠ "linux") then (Err errNotSupported, u, [])
  else
    match findVPMEMDevice u hostPath_ with
    | IndexPanic => (IndexPanic, u, [])
    | Err err => (Err err, u, [])
    | Ok deviceNumber =>
        match vpmemDevices u !! Z.to_nat deviceNumber with
        | Some (Some device) =>
            if bool_decide (refCount device = 1) then
              if negb (VPMemManager H) || negb (Supported H Remove)
              then (Err vm_ErrNotSupported, u, [])
              else
                let guestReq :=
                  {| RequestType := Remove; DeviceNumber := deviceNumber;
                     MountPath := uvmPath device |} in
                match GuestRequest H guestReq with
                | Some err => (Err err, u, [GuestReq guestReq])
                | None =>
                    match RemoveVPMemDevice H deviceNumber hostPath_ with
                    | Some err =>
                        (Err err, u,
                         [GuestReq guestReq; HostRemove deviceNumber hostPath_])
                    | None =>
                        (Ok (), set_device u deviceNumber None,
                         [GuestReq guestReq; HostRemove deviceNumber hostPath_])
                    end
                end
            else
              (Ok (),
               set_device u deviceNumber
                 (Some {| hostPath := hostPath device; uvmPath := uvmPath device;
                          refCount := uint32 (refCount device - 1) |}),
               [])
        | _ => (IndexPanic, u, [])
        end
    end.

(** The table has a slot for every device number below the maximum, and
    below the maximum no host path is attached twice. *)
Definition table_ok (u : UtilityVM) : Prop :=
  (Z.to_nat (vpmemMaxCount u) ≤ length (vpmemDevices u))%nat
  ∧ (∀ i j di dj,
       (i < Z.to_nat (vpmemMaxCount u))%nat →
       (j < Z.to_nat (vpmemMaxCount u))%nat →
       vpmemDevices u !! i = Some (Some di) →
       vpmemDevices u !! j = Some (Some dj) →
       hostPath di = hostPath dj → i = j).

(** The slot a host path is attached at, among the slots below the maximum. *)
Definition attached_at (u : UtilityVM) (path : string) (i : nat) (d : vpmemInfo) : Prop :=
  (i < Z.to_nat (vpmemMaxCount u))%nat
  ∧ vpmemDevices u !! i = Some (Some d) ∧ hostPath d = path.

End uvm.

(** ** Mounted cim images of the host (package [cimfs]) *)

Module cimfs.

(** A [guid.GUID], kept as the text its [String] method gives. *)
Record GUID : Type := mkGUID { guid_String : string }.

(** The error of a collaborator, kept as its text. *)
Definition cause : Type := string.

(** [MountError] (its [VolumeGUID] is [None] where the source leaves the
    field unset) and the errors made with [errors.Errorf]. *)
Inductive error : Type :=
| MountError (Cim Op : string) (VolumeGUID : option GUID) (Err : cause)
| Errorf (msg : string).

Inductive result (A : Type) : Type :=
| Ok (a : A)
| Err (e : error)
| NilPanic.

Arguments Ok {A}.
Arguments Err {A}.
Arguments NilPanic {A}.

Record cimInfo : Type := mkCimInfo {
  path : string;
  cimID : GUID;
  refCount : Z
}.

(** The global [hostCimMounts]. *)
Abbreviation mounts := (gmap string cimInfo).

(** What [guid.NewV4], [winapi] and [filepath] answer during one call. *)
Record winapi : Type := mkWinapi {
  guid_NewV4 : GUID + cause;
  CimMountImage : string → string → Z → GUID → option cause;
  CimDismountImage : GUID → option cause;
  filepath_Dir : string → string;
  filepath_Base : string → string;
  (* [hcsschema.CimMountFlagCacheRegions] *)
  CimMountFlagCacheRegions : Z
}.

Inductive effect : Type :=
| MountImage (dir base : string) (flags : Z) (volume : GUID)
| DismountImage (volume : GUID).

(** [fmt.Sprintf] of the volume path of a GUID. *)
Definition volumePath (g : GUID) : string :=
  "\\?\Volume{" +:+ guid_String g +:+ "}\".

Definition set_refCount (ci : cimInfo) (n : Z) : cimInfo :=
  {| path := path ci; cimID := cimID ci; refCount := n |}.

(** The end of [MountWithFlags]: [ci := hostCimMounts[cimPath]], one more
    reference, and the volume path. *)
Definition addRef (m : mounts) (cimPath : string) : result string * mounts :=
  match m !! cimPath with
  | Some ci =>
      (Ok (volumePath (cimID ci)),
       <[cimPath := set_refCount ci (uint32 (refCount ci + 1))]> m)
  | None => (NilPanic, m)
  end.

Definition MountWithFlags (W : winapi) (m : mounts) (cimPath : string)
    (mountFlags : Z) : result string * mounts * list effect :=
  match m !! cimPath with
  | None =>
      match guid_NewV4 W with
      | inr err => (Err (MountError cimPath "Mount" None err), m, [])
      | inl layerGUID =>
          let call :=
            MountImage (filepath_Dir W cimPath) (filepath_Base W cimPath)
              mountFlags layerGUID in
          match CimMountImage W (filepath_Dir W cimPath) (filepath_Base W cimPath)
                  mountFlags layerGUID with
          | Some err =>
              (Err (MountError cimPath "Mount" (Some layerGUID) err), m, [call])
          | None =>
              let '(r, m') :=
                addRef (<[cimPath := {| path := cimPath; cimID := layerGUID;
                                        refCount := 0 |}]> m) cimPath in
              (r, m', [call])
          end
      end
  | Some _ => let '(r, m') := addRef m cimPath in (r, m', [])
  end.

Definition Mount (W : winapi) (m : mounts) (cimPath : string)
  : result string * mounts * list effect :=
  MountWithFlags W m cimPath (CimMountFlagCacheRegions W).

Definition GetCimMountPath (m : mounts) (cimPath : string) : string + error :=
  match m !! cimPath with
  | None => inr (Errorf ("cim " +:+ cimPath +:+ " is not mounted"))
  | Some ci => inl (volumePath (cimID ci))
  end.

Definition Unmount (W : winapi) (m : mounts) (cimPath : string)
  : option error * mounts * list effect :=
  match m !! cimPath with
  | None => (Some (Errorf "cim not mounted"), m, [])
  | Some ci =>
      if bool_decide (refCount ci = 1) then
        match CimDismountImage W (cimID ci) with
        | Some err =>
            (Some (MountError cimPath "Unmount" None err), m,
             [DismountImage (cimID ci)])
        | None => (None, delete cimPath m, [DismountImage (cimID ci)])
        end
      else (None, <[cimPath := set_refCount ci (uint32 (refCount ci - 1))]> m, [])
  end.

End cimfs.

(** ** Fixtures for the creation path, the VPMEM slots and the cim mounts *)

(** Collaborators for a process-isolated Windows container: no boundary is
    asked for and everything succeeds. *)
Definition processIsolated : provisioner :=
  {| GetSandboxTypeAndID := λ _, inl (KubernetesContainerTypeNone, "");
     osversion_Build := 17763;
     osversion_RS5 := 17763;
     IsIsolated := λ _, false;
     IsWCOW := λ _, true;
     SpecToUVMCreateOpts := λ s id owner,
       inl (optsLCOW {| lcow_ID := id; lcow_Owner := owner |});
     CreateLCOW := λ o, inl {| uvm_id := lcow_ID o |};
     CreateWCOW := λ o, inl {| uvm_id := wcow_ID o |};
     uvm_Start := λ _, None;
     os_MkdirAll := λ _ _, None;
     os_Args0 := "containerd-shim-runhcs-v1.exe";
     os_Executable := inl "containerd-shim-runhcs-v1.exe";
     filepath_Base := λ path, path;
     filepath_Join := λ a b, (a ++ "\" ++ b)%string;
     CreateContainer := λ o,
       inl ({| sys_id := co_ID o; sys_host := co_HostingSystem o |},
            {| res_id := co_ID o |}) |}.

(** Collaborators that read the annotations of a container of the pod
    "pod1". *)
Definition podMember : provisioner :=
  {| GetSandboxTypeAndID := λ _, inl (KubernetesContainerTypeContainer, "pod1");
     osversion_Build := 17763;
     osversion_RS5 := 17763;
     IsIsolated := λ _, false;
     IsWCOW := λ _, true;
     SpecToUVMCreateOpts := λ s id owner,
       inl (optsLCOW {| lcow_ID := id; lcow_Owner := owner |});
     CreateLCOW := λ o, inl {| uvm_id := lcow_ID o |};
     CreateWCOW := λ o, inl {| uvm_id := wcow_ID o |};
     uvm_Start := λ _, None;
     os_MkdirAll := λ _ _, None;
     os_Args0 := "containerd-shim-runhcs-v1.exe";
     os_Executable := inl "containerd-shim-runhcs-v1.exe";
     filepath_Base := λ path, path;
     filepath_Join := λ a b, (a ++ "\" ++ b)%string;
     CreateContainer := λ o,
       inl ({| sys_id := co_ID o; sys_host := co_HostingSystem o |},
            {| res_id := co_ID o |}) |}.

(** Collaborators for a Linux guest where the boundary starts and the
    creation of the container fails. *)
Definition failingContainer : provisioner :=
  {| GetSandboxTypeAndID := λ _, inl (KubernetesContainerTypeNone, "");
     osversion_Build := 17763;
     osversion_RS5 := 17763;
     IsIsolated := λ _, true;
     IsWCOW := λ _, false;
     SpecToUVMCreateOpts := λ s id owner,
       inl (optsLCOW {| lcow_ID := id; lcow_Owner := owner |});
     CreateLCOW := λ o, inl {| uvm_id := lcow_ID o |};
     CreateWCOW := λ o, inl {| uvm_id := wcow_ID o |};
     uvm_Start := λ _, None;
     os_MkdirAll := λ _ _, None;
     os_Args0 := "containerd-shim-runhcs-v1.exe";
     os_Executable := inl "containerd-shim-runhcs-v1.exe";
     filepath_Base := λ path, path;
     filepath_Join := λ a b, (a ++ "\" ++ b)%string;
     CreateContainer := λ o, inr (ErrExternal "create failed") |}.

(** A Windows specification without layer folders. *)
Definition noLayersSpec : Spec :=
  {| Annotations := [];
     spec_Windows :=
       Some {| LayerFolders := {| s_ptr := 1%positive; s_len := 0 |};
               Network := None |};
     spec_Process := {| proc_Args := ["cmd"] |} |}.

(** A Linux utility VM with three slots, the second one taken. *)
Definition layerA : uvm.vpmemInfo :=
  {| uvm.hostPath := "C:\layers\a.vhd"; uvm.uvmPath := "/run/layers/p1";
     uvm.refCount := 1 |}.

Definition testLinuxVM : uvm.UtilityVM :=
  {| uvm.operatingSystem := "linux"; uvm.vpmemMaxCount := 3;
     uvm.vpmemMaxSizeBytes := 1000;
     uvm.vpmemDevices := [None; Some layerA; None] |}.

Definition testWindowsVM : uvm.UtilityVM :=
  {| uvm.operatingSystem := "windows"; uvm.vpmemMaxCount := 3;
     uvm.vpmemMaxSizeBytes := 1000;
     uvm.vpmemDevices := [None; None; None] |}.

(** A host and guest that accept everything; every file has 10 bytes. *)
Definition testHost : uvm.host :=
  {| uvm.os_Stat := λ _, inl 10;
     uvm.VPMemManager := true;
     uvm.Supported := λ _, true;
     uvm.AddVPMemDevice := λ _ _, None;
     uvm.RemoveVPMemDevice := λ _ _, None;
     uvm.GuestRequest := λ _, None |}.

Definition testGUID : cimfs.GUID :=
  {| cimfs.guid_String := "0f8fad5b-d9cb-469f-a165-70867728950e" |}.

(** A Windows API that accepts everything and hands out [testGUID]. *)
Definition testWinapi : cimfs.winapi :=
  {| cimfs.guid_NewV4 := inl testGUID;
     cimfs.CimMountImage := λ _ _ _ _, None;
     cimfs.CimDismountImage := λ _, None;
     cimfs.filepath_Dir := λ _, "C:\cims";
     cimfs.filepath_Base := λ _, "layer.cim";
     cimfs.CimMountFlagCacheRegions := 1 |}.

Definition testCimPath : string := "C:\cims\layer.cim".

Definition oneMount : gmap string cimfs.cimInfo :=
  {[ testCimPath := {| cimfs.path := testCimPath; cimfs.cimID := testGUID;
                       cimfs.refCount := 1 |} ]}.

(** * Properties *)

(** ** The registry *)

Section syncMap_facts.
Context {V : Type}.
Implicit Types (m : syncMap.t V) (k : string).

Lemma Load_Delete m k k' :
  syncMap.Load (syncMap.Delete m k) k' =
  if decide (k' = k) then None else syncMap.Load m k'.
Proof.
  unfold syncMap.Delete. induction m as [|[k0 v0] m IH].
  - simpl. by case_decide.
  - rewrite filter_cons. simpl.
    destruct (decide (k0 ≠ k)) as [Hne|Heq]; simpl.
    + rewrite IH. repeat case_decide; congruence.
    + apply dec_stable in Heq. subst k0. rewrite IH.
      repeat case_decide; congruence.
Qed.

Lemma Load_Store m k v k' :
  syncMap.Load (syncMap.Store m k v) k' =
  if decide (k = k') then Some v else syncMap.Load m k'.
Proof.
  induction m as [|[k0 v0] m IH]; simpl.
  - done.
  - destruct (decide (k0 = k)) as [->|Hne]; simpl.
    + repeat case_decide; congruence.
    + rewrite IH. repeat case_decide; congruence.
Qed.

(** A closure that always answers [false] is called on the first entry only. *)
Lemma Range_stops {A : Type} (f : string → V → A → A * bool) m acc :
  (∀ k v a, (f k v a).2 = false) →
  syncMap.Range f m acc =
  match m with
  | [] => acc
  | (k, v) :: _ => (f k v acc).1
  end.
Proof.
  intros Hf. destruct m as [|[k v] m]; simpl; [done|].
  specialize (Hf k v acc). destruct (f k v acc) as [acc' b].
  simpl in Hf. by subst b.
Qed.

End syncMap_facts.

Section task_facts.
Context {E : Type} {HE : shimExec E}.
Implicit Types (ht : hcsTask E) (m : syncMap.t E) (eid : string).

Lemma GetExec_init ht : GetExec ht "" = inl (init ht).
Proof. done. Qed.

Lemma GetExec_named ht eid :
  eid ≠ "" →
  GetExec ht eid =
  match syncMap.Load (execs ht) eid with
  | Some e => inl e
  | None => inr ErrNotFound
  end.
Proof. intros Hne. unfold GetExec. case_decide; [done|]. by destruct syncMap.Load. Qed.

(** Once [invalid] is set the check keeps it. *)
Lemma check_exited_true m : syncMap.Range check_exited m true = true.
Proof.
  induction m as [|[k v] m IH]; simpl; [done|].
  unfold check_exited. by case_bool_decide.
Qed.

(** What the check of the children computes: whether the first exec that
    [Range] visits has not exited. *)
Lemma check_exited_first m :
  syncMap.Range check_exited m false =
  match m with
  | [] => false
  | (_, ex) :: _ => bool_decide (State ex ≠ shimExecStateExited)
  end.
Proof.
  destruct m as [|[k v] m]; simpl; [done|].
  unfold check_exited. case_bool_decide; simpl; [apply check_exited_true|done].
Qed.

Lemma check_exited_all_exited m :
  all_exited m → syncMap.Range check_exited m false = false.
Proof.
  intros Hall. rewrite check_exited_first. destruct Hall as [|[k v] m Hv _]; [done|].
  simpl in Hv. by rewrite bool_decide_eq_false_2 by (by intros ?).
Qed.

(** What the fan-out of [KillExec] does: it signals the first exec that
    [Range] visits and no other. *)
Lemma kill_each_first signal m (acc : syncMap.t E * errgroup.Group * list effect) :
  syncMap.Range (kill_each signal) m acc =
  match m with
  | [] => acc
  | (k, ex) :: _ =>
      (syncMap.Store acc.1.1 k (Kill ex signal).1,
       errgroup.Go acc.1.2 (Kill ex signal).2,
       acc.2 ++ [Signalled k signal])
  end.
Proof.
  rewrite Range_stops.
  - destruct m as [|[k ex] m]; [done|]. destruct acc as [[m0 eg] tr].
    unfold kill_each. by destruct (Kill ex signal).
  - intros k v [[m0 eg] tr]. unfold kill_each. by destruct (Kill v signal).
Qed.

(** C1, in general: whatever the registry holds, [KillExec] with [all] set
    signals at most one exec of the registry (the one [Range] visits first)
    and then the init exec. *)
Lemma KillExec_all_signals ht signal :
  signalled (KillExec ht "" signal true).2 =
  take 1 (syncMap.keys (execs ht)) ++ [""].
Proof.
  unfold KillExec. rewrite GetExec_init. simpl.
  rewrite kill_each_first.
  destruct (execs ht) as [|[k ex] m]; simpl.
  - by destruct (Kill (init ht) signal).
  - by destruct (Kill (init ht) signal).
Qed.

End task_facts.

(** C1: a task with two running execs "e1" and "e2" receives a kill-all.  The
    call reports no error and has signalled "e1" and the init exec; "e2" was
    never signalled and is still running. *)
Theorem KillExec_all_misses_second :
  let '(err, ht', tr) := KillExec (testTask shimExecStateRunning twoRunning) "" 15 true in
  err = None
  ∧ signalled tr = ["e1"; ""]
  ∧ ("e2" ∉ signalled tr)
  ∧ (State <$> syncMap.Load (execs ht') "e2") = Some shimExecStateRunning.
Proof.
  vm_compute. split_and!; try done.
  intros Hin. repeat (apply elem_of_cons in Hin as [Hin|Hin]; [done|]).
  by apply elem_of_nil in Hin.
Qed.

(** ** The check of the children before the init exec is killed or deleted *)

(** C2: the registry of a task holds "e1", which has exited, and "e2", which
    is running, and [Range] visits "e1" first.  Killing the init exec is not
    refused: the init exec is signalled.  Deleting the exited init exec is not
    refused either: the task-delete event of the init exec is published while
    "e2" is still running. *)
Theorem init_check_misses_running_child :
  KillExec (testTask shimExecStateRunning exitedThenRunning) "" 15 false
  = (None, testTask shimExecStateExited exitedThenRunning, [Signalled "" 15])
  ∧ DeleteExec (testTask shimExecStateExited exitedThenRunning) ""
  = (100, 255, Time_zero, None, testTask shimExecStateExited exitedThenRunning,
     [Published TaskDeleteEventTopic (TaskDelete "t1" "" 100 255 Time_zero)]).
Proof. split; reflexivity. Qed.

Section check_facts.
Context {E : Type} {HE : shimExec E}.
Implicit Types (ht : hcsTask E) (m : syncMap.t E) (eid : string).

(** C2, the part the code keeps: when the exec [Range] visits first has not
    exited, killing and deleting the init exec are both refused as
    precondition violations and nothing changes. *)
Lemma init_guarded_by_first_child ht k ex m signal :
  execs ht = (k, ex) :: m →
  State ex ≠ shimExecStateExited →
  rejected ht (KillExec ht "" signal false)
  ∧ delete_rejected ht (DeleteExec ht "").
Proof.
  intros Hm Hex. unfold rejected, delete_rejected, KillExec, DeleteExec.
  rewrite GetExec_init. simpl. rewrite check_exited_first, Hm.
  by rewrite bool_decide_eq_true_2.
Qed.

(** C2, the converse: when every exec of the registry has exited the check
    lets the kill or delete of the init exec through. *)
Lemma init_check_passes ht signal :
  all_exited (execs ht) →
  KillExec ht "" signal false
  = (errgroup.Wait (errgroup.Go errgroup.zero (Kill (init ht) signal).2),
     set_init ht (Kill (init ht) signal).1, [Signalled "" signal])
  ∧ syncMap.Range check_exited (execs ht) false = false.
Proof.
  intros Hall. split; [|by apply check_exited_all_exited].
  unfold KillExec. rewrite GetExec_init. simpl.
  rewrite check_exited_all_exited by done.
  by destruct (Kill (init ht) signal).
Qed.

End check_facts.

(** ** [CreateExec] *)

(** C5: [CreateExec] answers already-exists for the empty identifier and for
    an identifier the registry holds; for any other identifier it answers a
    precondition violation unless the init exec is running; and whenever it
    answers an error the task is as before and nothing was published. *)
Theorem CreateExec_failures {E : Type} {HE : shimExec E}
    (K : constructors E) (ht : hcsTask E) (req : ExecProcessRequest) (spec : Process) :
  let '(err, ht', tr) := CreateExec K ht req spec in
  (epr_ExecID req = "" ∨ is_Some (syncMap.Load (execs ht) (epr_ExecID req)) →
     err = Some ErrAlreadyExists)
  ∧ (epr_ExecID req ≠ "" → syncMap.Load (execs ht) (epr_ExecID req) = None →
     State (init ht) ≠ shimExecStateRunning →
     err = Some ErrFailedPrecondition)
  ∧ (is_Some err → ht' = ht ∧ tr = []).
Proof.
  unfold CreateExec.
  destruct (bool_decide (is_Some _) || bool_decide (epr_ExecID req = ""))
    eqn:Hdup.
  - split_and!; [done| |done].
    intros Hne Hnone _. exfalso. apply orb_true_iff in Hdup as [Hd|Hd].
    + apply bool_decide_eq_true_1 in Hd. rewrite Hnone in Hd. by destruct Hd.
    + by apply bool_decide_eq_true_1 in Hd.
  - apply orb_false_iff in Hdup as [Hd1 Hd2].
    apply bool_decide_eq_false_1 in Hd1. apply bool_decide_eq_false_1 in Hd2.
    case_bool_decide as Hrun.
    + split_and!; [|done|done]. intros [?|?]; done.
    + destruct (newRelay K _ _ _ _) as [io|err].
      * split_and!; [intros [?|?]; done|done|]. intros [? [=]].
      * split_and!; [intros [?|?]; done|done|done].
Qed.

Lemma CreateExec_failures_witness :
  (CreateExec testConstructors (testTask shimExecStateCreated oneRunning)
     (mkExecProcessRequest "e2" "" "" "" false) (mkProcess [])).1.1
  = Some ErrFailedPrecondition.
Proof.
  pose proof (CreateExec_failures testConstructors
                (testTask shimExecStateCreated oneRunning)
                (mkExecProcessRequest "e2" "" "" "" false) (mkProcess [])) as Hc.
  destruct (CreateExec _ _ _ _) as [[err ht'] tr].
  destruct Hc as (_ & Hpre & _). simpl. apply Hpre; done.
Defined.

(** On the path without failure the exec is stored under its identifier and
    the exec-added event is published. *)
Lemma CreateExec_success {E : Type} {HE : shimExec E}
    (K : constructors E) (ht : hcsTask E) (req : ExecProcessRequest) (spec : Process) io :
  epr_ExecID req ≠ "" →
  syncMap.Load (execs ht) (epr_ExecID req) = None →
  State (init ht) = shimExecStateRunning →
  newRelay K (epr_Stdin req) (epr_Stdout req) (epr_Stderr req) (epr_Terminal req)
    = inl io →
  let '(err, ht', tr) := CreateExec K ht req spec in
  err = None
  ∧ is_Some (syncMap.Load (execs ht') (epr_ExecID req))
  ∧ tr = [Published TaskExecAddedEventTopic (TaskExecAdded (id ht) (epr_ExecID req))].
Proof.
  intros Hne Hnone Hrun Hio. unfold CreateExec. rewrite Hnone, Hio.
  rewrite (bool_decide_eq_false_2 (is_Some None)) by (by intros [? ?]).
  rewrite (bool_decide_eq_false_2 (epr_ExecID req = "")) by done. simpl.
  rewrite bool_decide_eq_false_2 by (by intros ?).
  split_and!; [done| |done]. simpl. rewrite Load_Store.
  by rewrite decide_True.
Qed.

(** ** [DeleteExec] *)

(** C6, as stated, fails: the init exec of the task has exited and the only
    other exec "e1" is still running; deleting the init exec does not return
    its pid, exit status and exit time but is refused. *)
Lemma DeleteExec_contract_fails :
  ¬ DeleteExec_contract (testTask shimExecStateExited oneRunning) "".
Proof.
  intros Hc. destruct (Hc _ eq_refl) as [_ Hdone].
  specialize (Hdone eq_refl). vm_compute in Hdone. by destruct Hdone.
Qed.

(** C6, amended: on an existing exec that has not exited [DeleteExec] is
    refused as a precondition violation and nothing changes.  On one that has
    exited, provided for the init exec that every exec of the registry has
    exited as well, it returns the pid, exit status and exit time the exec
    reports, removes the exec from the registry exactly when the identifier
    is not empty, and publishes a task-delete event with those values. *)
Theorem DeleteExec_spec {E : Type} {HE : shimExec E}
    (ht : hcsTask E) (eid : string) (e : E) :
  GetExec ht eid = inl e →
  (State e ≠ shimExecStateExited → delete_rejected ht (DeleteExec ht eid))
  ∧ (State e = shimExecStateExited →
     (eid = "" → all_exited (execs ht)) →
     delete_done ht eid e (DeleteExec ht eid)).
Proof.
  intros Hget. unfold DeleteExec. rewrite Hget. split.
  - intros Hst. destruct (bool_decide (eid = "") && _); [done|].
    by rewrite bool_decide_eq_true_2.
  - intros Hst Hall.
    assert (bool_decide (eid = "") && syncMap.Range check_exited (execs ht) false
            = false) as ->.
    { case_bool_decide; [|done]. simpl. by apply check_exited_all_exited, Hall. }
    rewrite bool_decide_eq_false_2 by (by intros ?).
    unfold delete_done. split_and!; try done.
    + by case_bool_decide.
    + intros k. case_bool_decide as Hne; simpl.
      * rewrite Load_Delete.
        destruct (decide (k = eid ∧ eid ≠ "")) as [[-> _]|Hn];
          [by rewrite decide_True|].
        rewrite decide_False; [done|]. intros ->. by apply Hn.
      * rewrite decide_False; [done|]. by intros [_ ?].
Qed.

Lemma DeleteExec_spec_witness :
  delete_done (testTask shimExecStateRunning oneExited) "e1"
    (testExec "e1" 101 shimExecStateExited)
    (DeleteExec (testTask shimExecStateRunning oneExited) "e1").
Proof.
  apply (DeleteExec_spec (testTask shimExecStateRunning oneExited) "e1"
           (testExec "e1" 101 shimExecStateExited)).
  - reflexivity.
  - reflexivity.
  - intros [=].
Defined.

(** ** [KillExec] with [all] and a named exec *)

(** C9: with [all] set and an identifier that is not empty, [KillExec]
    answers a precondition violation when the registry holds the identifier,
    and not-found when it does not; in both cases no exec was signalled and
    the task is as before. *)
Theorem KillExec_all_named {E : Type} {HE : shimExec E}
    (ht : hcsTask E) (eid : string) (signal : Z) :
  eid ≠ "" →
  (is_Some (syncMap.Load (execs ht) eid) →
     KillExec ht eid signal true = (Some ErrFailedPrecondition, ht, []))
  ∧ (syncMap.Load (execs ht) eid = None →
     KillExec ht eid signal true = (Some ErrNotFound, ht, [])).
Proof.
  intros Hne. unfold KillExec. rewrite GetExec_named by done. split.
  - intros [e ->]. by rewrite bool_decide_eq_true_2.
  - by intros ->.
Qed.

Lemma KillExec_all_named_witness :
  KillExec (testTask shimExecStateRunning twoRunning) "e1" 15 true
  = (Some ErrFailedPrecondition, testTask shimExecStateRunning twoRunning, [])
  ∧ KillExec (testTask shimExecStateRunning twoRunning) "e3" 15 true
  = (Some ErrNotFound, testTask shimExecStateRunning twoRunning, []).
Proof.
  split.
  - apply (KillExec_all_named (testTask shimExecStateRunning twoRunning) "e1" 15).
    + intros [=].
    + by eexists.
  - apply (KillExec_all_named (testTask shimExecStateRunning twoRunning) "e3" 15).
    + intros [=].
    + reflexivity.
Defined.

(** ** [Pids] *)

(** C4: [Pids] of [hcsTask] answers not-implemented and no pair, whatever the
    task holds; here for a task with init pid 100 and two more execs. *)
Theorem hcsTask_Pids_not_implemented :
  Pids (testTask shimExecStateRunning twoRunning) = ([], Some ErrNotImplemented)
  ∧ ∀ (E : Type) (ht : hcsTask E), Pids ht = ([], Some ErrNotImplemented).
Proof. split; reflexivity. Qed.

Lemma foldl_snoc_map {A B : Type} (f : A → B) (l : list A) (acc : list B) :
  foldl (λ acc x, acc ++ [f x]) acc l = acc ++ map f l.
Proof.
  revert acc. induction l as [|x l IH]; intros acc; simpl.
  - by rewrite app_nil_r.
  - by rewrite IH, <- app_assoc.
Qed.

(** The test double does enumerate: the pair of the init exec followed by one
    pair for each exec of the map. *)
Lemma testShimTask_Pids_all (tst : testShimTask) :
  testShimTask_Pids tst =
  ((tse_pid (tst_exec tst), tse_id (tst_exec tst))
     :: map (λ kp, (tse_pid kp.2, tse_id kp.2)) (tst_execs tst), None).
Proof.
  unfold testShimTask_Pids.
  by rewrite (foldl_snoc_map (λ kp : string * testShimExec, (tse_pid kp.2, tse_id kp.2))).
Qed.

(** ** The teardown sequence *)

Section teardown_facts.
Context {E : Type}.
Implicit Types (G : engine) (ht : hcsTask E) (x : effect).

Lemma afterTerminate_parts G : Forall is_wait_or_log (afterTerminate G).
Proof.
  unfold afterTerminate.
  destruct (Terminate G) as [[]|], (WaitTimeout G terminateTimeout);
    simpl; repeat constructor.
Qed.

(** When the graceful shutdown fails, waits and log lines are followed by the
    forced terminate. *)
Lemma afterShutdown_failed G err :
  Shutdown G = Some err →
  ∃ pre, afterShutdown G = pre ++ ContainerTerminate :: afterTerminate G
         ∧ Forall is_wait_or_log pre.
Proof.
  intros Hs. unfold afterShutdown. rewrite Hs. eexists. split; [done|].
  destruct (IsPending err), (WaitTimeout G shutdownTimeout);
    simpl; repeat constructor.
Qed.

Lemma afterShutdown_ok G : Shutdown G = None → afterShutdown G = [].
Proof. intros Hs. unfold afterShutdown. by rewrite Hs. Qed.

(** The stages of [closeContainer] in the order they are run. *)
Lemma closeContainer_shape G ht :
  ∃ rl cl,
    closeContainer G ht =
      ContainerShutdown :: afterShutdown G
      ++ ResourcesReleased (cr ht) (host ht) true :: rl
      ++ ContainerClose :: cl
    ∧ Forall is_log rl ∧ Forall is_log cl.
Proof.
  unfold closeContainer. do 2 eexists. split; [done|].
  split.
  - destruct (ReleaseResources G); repeat constructor.
  - destruct (Close G) as [[]|]; simpl; repeat constructor.
Qed.

Lemma closeHost_shape G ht :
  (ownsHost ht = true ∧ ∃ vm logs,
     host ht = Some vm ∧ closeHost G ht = BoundaryClose vm :: logs
     ∧ Forall is_log logs)
  ∨ ((ownsHost ht = false ∨ host ht = None) ∧ closeHost G ht = []).
Proof.
  unfold closeHost. destruct (host ht) as [vm|]; [|right; auto].
  destruct (ownsHost ht); [left|right; auto].
  split; [done|]. do 2 eexists. split_and!; [done..|].
  destruct (host_Close G); repeat constructor.
Qed.

End teardown_facts.

Section teardown_order.
Context {E : Type}.
Implicit Types (G : engine) (ht : hcsTask E) (x : effect).

Lemma in_logs (l : list effect) x : Forall is_log l → x ∈ l → is_log x.
Proof. rewrite Forall_forall. auto. Qed.

Lemma in_waits (l : list effect) x :
  Forall is_wait_or_log l → x ∈ l → is_wait_or_log x.
Proof. rewrite Forall_forall. auto. Qed.

Lemma closeHost_members G ht x :
  x ∈ closeHost G ht →
  is_log x ∨ ∃ vm, x = BoundaryClose vm ∧ host ht = Some vm ∧ ownsHost ht = true.
Proof.
  destruct (closeHost_shape G ht) as [(Ho & vm & logs & Hh & -> & Hl)|[_ ->]].
  - intros [->|Hin]%elem_of_cons; [right; eauto|left].
    rewrite Forall_forall in Hl. auto.
  - by intros ?%elem_of_nil.
Qed.

(** Split a membership in a trace into the stages it is made of. *)
Ltac mem_cases H :=
  repeat match type of H with
  | _ ∈ _ :: _ => apply elem_of_cons in H as [H|H]; [try discriminate H|]
  | _ ∈ _ ++ _ => apply elem_of_app in H as [H|H]
  | _ ∈ [] => by apply elem_of_nil in H
  end.

Ltac mem_absurd H :=
  exfalso;
  first
    [ eapply in_logs in H; [exact H|eassumption]
    | eapply in_waits in H; [exact H|eassumption]
    | apply closeHost_members in H as [H|(? & ? & _)]; [exact H|discriminate] ].

Lemma shutdown_attempted G ht :
  ContainerShutdown ∈ waitForExit G ht ↔ is_Some (c ht).
Proof.
  unfold waitForExit. split.
  - destruct (c ht); [by eexists|].
    intros Hin. mem_cases Hin. mem_absurd Hin.
  - intros [sys ->]. unfold closeContainer. set_solver.
Qed.

Lemma terminate_attempted G ht :
  ContainerTerminate ∈ waitForExit G ht ↔ is_Some (c ht) ∧ is_Some (Shutdown G).
Proof.
  unfold waitForExit. split.
  - destruct (c ht) as [sys|].
    + destruct (closeContainer_shape G ht) as (rl & cl & -> & Hrl & Hcl).
      destruct (Shutdown G) as [err|] eqn:Hs; [by eauto|].
      rewrite afterShutdown_ok by done.
      intros Hin. mem_cases Hin; mem_absurd Hin.
    + intros Hin. mem_cases Hin. mem_absurd Hin.
  - intros [[sys ->] [err Hs]].
    destruct (afterShutdown_failed G err Hs) as (pre & Hpre & _).
    unfold closeContainer. rewrite Hpre. set_solver.
Qed.

(** What follows the forced terminate in a run: the wait of 30 seconds, log
    lines, the release of the resources, the close of the handle and the
    close of the boundary. *)
Lemma after_terminate_members G ht x :
  x ∈ afterTerminate G
      ++ ResourcesReleased (cr ht) (host ht) true ::
         match ReleaseResources G with
         | Some _ =>
             [LoggedError "hcsTask::close - failed to release container resources"]
         | None => []
         end
      ++ ContainerClose ::
         match Close G with
         | Some err =>
             if negb (IsAlreadyClosed err)
             then [LoggedError "hcsTask::close - failed to close container"]
             else []
         | None => []
         end
      ++ closeHost G ht →
  x ≠ ContainerTerminate ∧ x ≠ ContainerShutdown
  ∧ x ≠ ContainerWaitTimeout shutdownTimeout.
Proof.
  assert (∀ y, is_log y →
            y ≠ ContainerTerminate ∧ y ≠ ContainerShutdown
            ∧ y ≠ ContainerWaitTimeout shutdownTimeout) as Hlog.
  { intros y Hy. split_and!; intros ->; exact Hy. }
  assert (ContainerWaitTimeout terminateTimeout
          ≠ ContainerWaitTimeout shutdownTimeout) as Hne.
  { intros [=]. }
  intros Hin. apply elem_of_app in Hin as [Hin|Hin].
  - unfold afterTerminate in Hin.
    destruct (Terminate G) as [[]|], (WaitTimeout G terminateTimeout);
      simpl in Hin; mem_cases Hin; subst x;
      first [by apply Hlog | split_and!; [discriminate|discriminate|exact Hne]].
  - apply elem_of_cons in Hin as [->|Hin]; [split_and!; discriminate|].
    apply elem_of_app in Hin as [Hin|Hin].
    { destruct (ReleaseResources G); mem_cases Hin; subst x; by apply Hlog. }
    apply elem_of_cons in Hin as [->|Hin]; [split_and!; discriminate|].
    apply elem_of_app in Hin as [Hin|Hin].
    { destruct (Close G) as [[]|]; simpl in Hin; mem_cases Hin; subst x;
        by apply Hlog. }
    apply closeHost_members in Hin as [Hl|(vm & -> & _)];
      [by apply Hlog|split_and!; discriminate].
Qed.

(** C7, amended: forced terminate is attempted exactly when the graceful
    shutdown was attempted and returned an error, pending or not.  In such a
    run the shutdown comes first; when it reported pending the wait of 5
    minutes follows it; then come log lines only, and then the one forced
    terminate: neither the shutdown nor the wait of 5 minutes happens after
    it.  When terminate answers alreadyStopped the run is the one of a
    terminate that succeeded.  When terminate is attempted and answers
    pending, it is followed by a wait bounded by 30 seconds. *)
Theorem terminate_after_failed_shutdown G ht :
  (ContainerTerminate ∈ waitForExit G ht ↔
     ContainerShutdown ∈ waitForExit G ht ∧ is_Some (Shutdown G))
  ∧ (∀ err,
       ContainerShutdown ∈ waitForExit G ht →
       Shutdown G = Some err →
       ∃ logs post,
         waitForExit G ht =
         InitWaited :: ContainerShutdown ::
         (if IsPending err then [ContainerWaitTimeout (5 * time_Minute)] else [])
         ++ logs ++ ContainerTerminate :: post
         ∧ Forall is_log logs
         ∧ (ContainerTerminate ∉ post)
         ∧ (ContainerShutdown ∉ post)
         ∧ (ContainerWaitTimeout (5 * time_Minute) ∉ post))
  ∧ (Terminate G = Some hcsAlreadyStopped →
     waitForExit G ht = waitForExit (set_Terminate G None) ht)
  ∧ (Terminate G = Some hcsPending →
     ContainerTerminate ∈ waitForExit G ht →
     ∃ pre post,
       waitForExit G ht =
       pre ++ ContainerTerminate :: ContainerWaitTimeout (30 * time_Second) :: post).
Proof.
  split_and!.
  - by rewrite terminate_attempted, shutdown_attempted.
  - intros err [sys Hc]%shutdown_attempted Hs.
    unfold waitForExit, closeContainer, afterShutdown. rewrite Hc, Hs.
    assert (5 * time_Minute = shutdownTimeout) as -> by reflexivity.
    exists (match WaitTimeout G shutdownTimeout with
            | Some _ =>
                if IsPending err
                then [LoggedError "hcsTask::close - failed to wait for container shutdown"]
                else [LoggedError "hcsTask::close - failed to shutdown container"]
            | None =>
                if IsPending err then []
                else [LoggedError "hcsTask::close - failed to shutdown container"]
            end).
    eexists. split_and!;
      [|destruct (IsPending err), (WaitTimeout G shutdownTimeout);
          repeat constructor
       |intros Hin; apply (after_terminate_members G ht) in Hin as (H1 & H2 & H3);
          first [by apply H1|by apply H2|by apply H3]..].
    destruct (IsPending err), (WaitTimeout G shutdownTimeout);
      cbn [negb app];
      repeat first [rewrite <- app_assoc | rewrite <- app_comm_cons];
      reflexivity.
  - intros Ht. unfold waitForExit, closeContainer, afterShutdown, afterTerminate.
    simpl. by rewrite Ht.
  - intros Ht [[sys Hc] [err Hs]]%terminate_attempted.
    unfold waitForExit, closeContainer, afterShutdown, afterTerminate.
    rewrite Hc, Hs, Ht. simpl.
    eexists (InitWaited :: ContainerShutdown :: _), _.
    rewrite <- !app_assoc. simpl. reflexivity.
Qed.

Lemma split_at_unique {A : Type} (x : A) (l1 r1 l2 r2 : list A) :
  l1 ++ x :: r1 = l2 ++ x :: r2 → x ∉ l1 → x ∉ r1 → l2 = l1 ∧ r2 = r1.
Proof.
  revert l2. induction l1 as [|a l1 IH]; intros l2 Heq Hl Hr.
  - destruct l2 as [|b l2]; simplify_eq/=; [done|].
    exfalso. apply Hr. rewrite elem_of_app, elem_of_cons. auto.
  - apply not_elem_of_cons in Hl as [Hxa Hl].
    destruct l2 as [|b l2]; simplify_eq/=.
    destruct (IH l2) as [-> ->]; done.
Qed.

(** No stage that works on the container closes the boundary. *)
Lemma container_stages_keep_boundary G ht vm :
  BoundaryClose vm ∉
    InitWaited :: match c ht with Some _ => closeContainer G ht | None => [] end.
Proof.
  intros Hin. destruct (c ht) as [sys|].
  - destruct (closeContainer_shape G ht) as (rl & cl & Hcc & Hrl & Hcl).
    rewrite Hcc in Hin. clear Hcc.
    destruct (Shutdown G) as [err|] eqn:Hs.
    + destruct (afterShutdown_failed G err Hs) as (pre & Has & Hpre).
      rewrite Has in Hin. clear Has.
      pose proof (afterTerminate_parts G) as Hat.
      mem_cases Hin; mem_absurd Hin.
    + rewrite afterShutdown_ok in Hin by done. mem_cases Hin; mem_absurd Hin.
  - mem_cases Hin.
Qed.

(** The close of the boundary in a run of the sequencer on any task: it
    happens exactly when the task owns a boundary that is present, nothing
    but logging happens after it, and for a task with a container handle the
    shutdown, the release of the resources and the close of the handle have
    all been performed before it. *)
Lemma closeHost_comes_last G ht :
  (∀ vm, BoundaryClose vm ∈ waitForExit G ht ↔
         ownsHost ht = true ∧ host ht = Some vm)
  ∧ (∀ pre vm post,
       waitForExit G ht = pre ++ BoundaryClose vm :: post →
       Forall is_log post
       ∧ (is_Some (c ht) →
          ContainerShutdown ∈ pre
          ∧ ResourcesReleased (cr ht) (host ht) true ∈ pre
          ∧ ContainerClose ∈ pre)).
Proof.
  pose proof (container_stages_keep_boundary G ht) as Hkeep.
  assert (waitForExit G ht =
          (InitWaited :: match c ht with
                         | Some _ => closeContainer G ht
                         | None => []
                         end) ++ closeHost G ht) as Hsplit by done.
  rewrite Hsplit. clear Hsplit.
  set (stages := InitWaited :: _) in *.
  destruct (closeHost_shape G ht)
    as [(Ho & vm0 & logs & Hh & -> & Hl)|[Hno ->]].
  - split.
    + intros vm. split.
      * intros [Hin|Hin]%elem_of_app; [by apply Hkeep in Hin|].
        apply elem_of_cons in Hin as [[= ->]|Hin]; [done|].
        by apply (in_logs _ _ Hl) in Hin.
      * intros [_ Hvm]. rewrite Hh in Hvm. injection Hvm as ->. set_solver.
    + intros pre vm post Heq.
      assert (vm = vm0) as ->.
      { assert (BoundaryClose vm ∈ stages ++ BoundaryClose vm0 :: logs) as Hin
          by (rewrite Heq; set_solver).
        apply elem_of_app in Hin as [Hin|Hin]; [by apply Hkeep in Hin|].
        apply elem_of_cons in Hin as [[= ->]|Hin]; [done|].
        by apply (in_logs _ _ Hl) in Hin. }
      apply split_at_unique in Heq as [-> ->]; [|done|].
      2:{ intros Hin. by apply (in_logs _ _ Hl) in Hin. }
      split; [done|]. intros [sys Hc]. subst stages. rewrite Hc.
      unfold closeContainer. set_solver.
  - split.
    + intros vm. rewrite app_nil_r. split.
      * intros Hin. by apply Hkeep in Hin.
      * intros [Ho Hh]. destruct Hno; congruence.
    + intros pre vm post Heq. exfalso. apply (Hkeep vm).
      rewrite app_nil_r in Heq. rewrite Heq, elem_of_app, elem_of_cons. auto.
Qed.

End teardown_order.

(** C7, as stated, fails: the graceful shutdown reports pending and completes
    within the wait; forced terminate is attempted all the same. *)
Lemma terminate_iff_not_pending_fails :
  ¬ terminate_iff_not_pending pendingShutdown isolatedTask.
Proof.
  intros [Hto _]. destruct Hto as (_ & err & Herr & Hp).
  - apply terminate_attempted. split; by eexists.
  - simpl in Herr. injection Herr as <-. discriminate Hp.
Qed.


(** ** Task creation *)

Section creation_facts.
Context {E : Type} {HE : shimExec E}.
Variable P : provisioner.
Variable K : constructors E.
Implicit Types (h : heap) (req : CreateTaskRequest) (s : Spec).

(** C3, in general: when the start of a Linux-guest boundary fails, the
    boundary is closed and the creation goes on with [newHcsTask] inside the
    closed boundary; what is returned is what [newHcsTask] yields, and the
    error of the start is dropped. *)
Lemma start_error_dropped h req s sid lopts vm e :
  GetSandboxTypeAndID P (Annotations s) = inl (KubernetesContainerTypeNone, sid) →
  (osversion_RS5 P ≤ osversion_Build P)%Z →
  IsIsolated P s = true →
  SpecToUVMCreateOpts P s (ctr_ID req ++ "@vm")%string (filepath_Base P (os_Args0 P))
    = inl (optsLCOW lopts) →
  CreateLCOW P lopts = inl vm →
  uvm_Start P vm = Some e →
  newHcsStandaloneTask P K h req s =
  let '(shim, err, tr) := newHcsTask P K (Some vm) true req s in
  (Returned (match err with Some _ => None | None => shim end) err, h,
   [BoundaryCreate (optsLCOW lopts); BoundaryStart vm; BoundaryClose vm]
   ++ tr ++ match err with Some _ => [BoundaryClose vm] | None => [] end).
Proof.
  intros Hct Hver Hiso Hopts Hcreate Hstart.
  unfold newHcsStandaloneTask, provision, createLCOW.
  rewrite Hct, Hiso, Hopts, Hcreate, Hstart.
  rewrite bool_decide_eq_false_2 by (by intros ?).
  rewrite bool_decide_eq_true_2 by done. simpl.
  destruct (newHcsTask P K (Some vm) true req s) as [[shim [err|]] tr]; simpl.
  - done.
  - by rewrite app_nil_r.
Qed.

End creation_facts.

(** C3: an isolated Linux-guest request whose boundary fails to start, every
    other collaborator succeeding.  The boundary is closed, and then the
    container is created in it all the same: the call returns a task that
    owns the closed boundary and no error. *)
Theorem failed_start_still_creates_task :
  let P := testProvisioner false (Some (ErrExternal "start failed")) in
  let vm := {| uvm_id := "t1@vm" |} in
  uvm_Start P vm = Some (ErrExternal "start failed")
  ∧ ∃ ht opts ev,
      newHcsStandaloneTask P testConstructors ∅ testRequest lcowSpec
      = (Returned (Some ht) None, ∅,
         [BoundaryCreate
            (optsLCOW {| lcow_ID := "t1@vm";
                         lcow_Owner := "containerd-shim-runhcs-v1.exe" |});
          BoundaryStart vm; BoundaryClose vm;
          ContainerCreate opts; SequencerLaunched "t1";
          Published TaskCreateEventTopic ev])
      ∧ host ht = Some vm ∧ ownsHost ht = true
      ∧ co_HostingSystem opts = Some vm.
Proof.
  split; [reflexivity|]. do 3 eexists. split; [vm_compute; reflexivity|].
  by split_and!.
Qed.

(** ** The layer folders of a Windows-guest boundary *)

Section layers.
Variable P : provisioner.
Implicit Types (h : heap) (s : Spec) (sl : slice).

Lemma fresh_unallocated h : h !! fresh (dom h) = None.
Proof. apply not_elem_of_dom, is_fresh. Qed.

Lemma valid_slice_length h sl :
  valid_slice h sl → length (slice_read h sl) = s_len sl.
Proof.
  intros (arr & Harr & Hlen). unfold slice_read. rewrite Harr. simpl.
  rewrite length_take. lia.
Qed.

Lemma slice_read_frame h h' sl :
  valid_slice h sl →
  (∀ p arr, h !! p = Some arr → h' !! p = Some arr) →
  slice_read h' sl = slice_read h sl.
Proof.
  intros (arr & Harr & _) Hframe. unfold slice_read.
  by rewrite (Hframe _ _ Harr), Harr.
Qed.

(** After [make] and [copy] the new slice holds the elements of the old one
    and every array that was there before is as it was. *)
Lemma make_copy h sl :
  valid_slice h sl →
  let '(h1, layers) := make h (s_len sl) in
  let h2 := copy h1 layers sl in
  layers = {| s_ptr := fresh (dom h); s_len := s_len sl |}
  ∧ h2 !! s_ptr layers = Some (slice_read h sl)
  ∧ (∀ q, q ≠ s_ptr layers → h2 !! q = h !! q).
Proof.
  intros Hvalid. pose proof (valid_slice_length _ _ Hvalid) as Hls.
  destruct Hvalid as (arr & Harr & Hbound).
  unfold make. simpl. set (p := fresh (dom h)).
  assert (h !! p = None) as Hp by apply fresh_unallocated.
  assert (p ≠ s_ptr sl) as Hne by congruence.
  set (h1 := <[p := replicate (s_len sl) ""]> h).
  assert (slice_read h1 sl = slice_read h sl) as Hread1.
  { unfold slice_read, h1. by rewrite lookup_insert_ne. }
  split_and!; [done| |].
  - unfold copy. simpl. rewrite Nat.min_id, Hread1.
    unfold h1. rewrite lookup_alter_eq, lookup_insert_eq. simpl.
    rewrite take_ge by lia. rewrite drop_ge by (rewrite length_replicate; lia).
    by rewrite app_nil_r.
  - intros q Hq. unfold copy. simpl.
    rewrite lookup_alter_ne by done. unfold h1. by rewrite lookup_insert_ne.
Qed.

(** What [createWCOW] does to the heap and what it hands to the provisioner
    of the boundary. *)
Lemma createWCOW_layers h s w wopts :
  spec_Windows s = Some w →
  valid_slice h (LayerFolders w) →
  let ls := slice_read h (LayerFolders w) in
  let vmPath := filepath_Join P (default "" (last ls)) "vm" in
  let layers := {| s_ptr := fresh (dom h); s_len := s_len (LayerFolders w) |} in
  let wopts' := {| wcow_ID := wcow_ID wopts; wcow_Owner := wcow_Owner wopts;
                   wcow_LayerFolders := layers |} in
  let '(st, h', tr) := createWCOW P h s wopts in
  (∀ p arr, h !! p = Some arr → h' !! p = Some arr)
  ∧ (tr = [] ∨ tr = [MkdirAll vmPath 0]
     ∨ tr = [MkdirAll vmPath 0; BoundaryCreate (optsWCOW wopts')]
       ∧ slice_read h' layers = <[pred (length ls) := vmPath]> ls)
  ∧ (ls ≠ [] → os_MkdirAll P vmPath 0 = None →
     tr = [MkdirAll vmPath 0; BoundaryCreate (optsWCOW wopts')]).
Proof.
  intros Hw Hvalid ls vmPath layers wopts'.
  pose proof (valid_slice_length _ _ Hvalid) as Hls. fold ls in Hls.
  pose proof (make_copy h _ Hvalid) as Hmc.
  unfold createWCOW. rewrite Hw.
  destruct (make h (s_len (LayerFolders w))) as [h1 layers0].
  destruct Hmc as (-> & Hh2 & Hh2'). simpl in Hh2, Hh2'. fold ls in Hh2.
  fold layers in Hh2, Hh2' |- *.
  set (h2 := copy h1 layers (LayerFolders w)) in *.
  set (n := s_len (LayerFolders w)) in *.
  assert (h !! fresh (dom h) = None) as Hp by apply fresh_unallocated.
  assert (∀ p arr, h !! p = Some arr → h2 !! p = Some arr) as Hframe2.
  { intros q arr' Hq. rewrite Hh2'; [done|congruence]. }
  unfold slice_index. simpl. fold n. case_bool_decide as Hn; last first.
  { split_and!; [done|by left|]. intros Hne. destruct ls; [done|].
    simpl in Hls. lia. }
  replace (Z.to_nat (Z.of_nat n - 1)) with (pred n) by lia.
  unfold slice_read at 1. simpl. rewrite Hh2. simpl.
  rewrite take_ge by lia.
  assert (last ls = ls !! pred n) as Hlast by (by rewrite last_lookup, Hls).
  assert (is_Some (ls !! pred n)) as [x Hx] by (apply lookup_lt_is_Some; lia).
  rewrite Hx.
  assert (vmPath = filepath_Join P x "vm") as <-.
  { unfold vmPath. by rewrite Hlast, Hx. }
  destruct (os_MkdirAll P vmPath 0) as [err|] eqn:Hmk.
  { split_and!; [done|by right; left|done]. }
  unfold slice_assign. simpl. fold n.
  rewrite bool_decide_eq_true_2 by lia.
  replace (Z.to_nat (Z.of_nat n - 1)) with (pred n) by lia.
  fold layers wopts'.
  set (h3 := alter _ (fresh (dom h)) h2).
  assert (∀ q arr', h !! q = Some arr' → h3 !! q = Some arr') as Hframe.
  { intros q arr' Hq. unfold h3.
    rewrite lookup_alter_ne by congruence. by apply Hframe2. }
  assert (slice_read h3 layers = <[pred (length ls) := vmPath]> ls) as Hnew.
  { unfold slice_read, h3. simpl. rewrite lookup_alter_eq, Hh2. simpl.
    rewrite Hls. rewrite take_ge; [done|]. rewrite length_insert. lia. }
  destruct (CreateWCOW P wopts'); (split_and!; [done|by right; right|done]).
Qed.

End layers.

Lemma newHcsTask_trace {E : Type} {HE : shimExec E}
    (P : provisioner) (K : constructors E) parent owns req s opts :
  BoundaryCreate opts ∉ (newHcsTask P K parent owns req s).2.
Proof.
  unfold newHcsTask.
  destruct (os_Executable P); [|by intros ?%elem_of_nil].
  destruct (newRelay K _ _ _ _); [|by intros ?%elem_of_nil].
  destruct (CreateContainer P _) as [[sys res]|err]; simpl; intros Hin;
    repeat (apply elem_of_cons in Hin as [Hin|Hin]; [discriminate Hin|]);
    by apply elem_of_nil in Hin.
Qed.

(** C8: the teardown sequence runs on the tasks [newHcsTask] returns, which
    launches it on the task it has built and is its only caller.  In every
    such run the boundary is closed exactly when the task owns it and it is
    present; the shutdown of the container, the forced terminate if there is
    one, the release of the resources and the close of the container handle
    have all been performed before that close, and nothing but logging
    happens after it. *)
Theorem boundary_closed_last {E : Type} {HE : shimExec E}
    (P : provisioner) (K : constructors E) (parent : option UtilityVM)
    (owns : bool) (req : CreateTaskRequest) (s : Spec)
    (ht : hcsTask E) (err : option error) (tr : list effect) (G : engine) :
  newHcsTask P K parent owns req s = (Some ht, err, tr) →
  SequencerLaunched (id ht) ∈ tr
  ∧ ownsHost ht = owns ∧ host ht = parent
  ∧ (∀ vm, BoundaryClose vm ∈ waitForExit G ht ↔
           ownsHost ht = true ∧ host ht = Some vm)
  ∧ boundary_after_container G ht
  ∧ (∀ pre vm post,
       waitForExit G ht = pre ++ BoundaryClose vm :: post →
       Forall is_log post
       ∧ (ContainerTerminate ∈ waitForExit G ht → ContainerTerminate ∈ pre)).
Proof.
  intros Hnew.
  assert (is_Some (c ht) ∧ ownsHost ht = owns ∧ host ht = parent
          ∧ SequencerLaunched (id ht) ∈ tr) as (Hc & Ho & Hh & Hl).
  { revert Hnew. unfold newHcsTask.
    destruct (os_Executable P); [|done].
    destruct (newRelay K _ _ _ _); [|done].
    destruct (CreateContainer P _) as [[sys res]|e]; [|done].
    intros [= <- <- <-]. simpl. split_and!; [by eexists|done..|].
    apply list_elem_of_further, list_elem_of_here. }
  destruct (closeHost_comes_last G ht) as [Hiff Hlast].
  split_and!; [done..| |].
  - intros pre vm post Heq. by apply (Hlast pre vm post Heq).
  - intros pre vm post Heq. destruct (Hlast pre vm post Heq) as [Hlogs _].
    split; [done|]. rewrite Heq. intros Hin.
    apply elem_of_app in Hin as [Hin|Hin]; [done|].
    apply elem_of_cons in Hin as [Hin|Hin]; [discriminate Hin|].
    rewrite Forall_forall in Hlogs. by destruct (Hlogs _ Hin).
Qed.

(** C10: for a Windows-guest isolated request, the creation path leaves every
    array of the heap as it was, in particular the layer folders of the
    specification.  Whatever options the provisioner of the boundary receives
    are the ones derived from the specification with the layer folders set to
    a slice backed by a new array, and that array holds the layer folders of
    the specification with only the last entry replaced by its vm
    subdirectory.  The provisioner does receive them when there is at least
    one layer folder and the vm directory can be created. *)
Theorem layers_copied_for_boundary {E : Type} {HE : shimExec E}
    (P : provisioner) (K : constructors E) (h : heap)
    (req : CreateTaskRequest) (s : Spec) (sid : string)
    (wopts : OptionsWCOW) (w : Windows) :
  GetSandboxTypeAndID P (Annotations s) = inl (KubernetesContainerTypeNone, sid) →
  (osversion_RS5 P ≤ osversion_Build P)%Z →
  IsIsolated P s = true →
  SpecToUVMCreateOpts P s (ctr_ID req ++ "@vm")%string (filepath_Base P (os_Args0 P))
    = inl (optsWCOW wopts) →
  spec_Windows s = Some w →
  valid_slice h (LayerFolders w) →
  let ls := slice_read h (LayerFolders w) in
  let vmPath := filepath_Join P (default "" (last ls)) "vm" in
  let '(_, h', tr) := newHcsStandaloneTask P K h req s in
  (∀ p arr, h !! p = Some arr → h' !! p = Some arr)
  ∧ slice_read h' (LayerFolders w) = ls
  ∧ (∀ opts, BoundaryCreate opts ∈ tr →
       ∃ layers,
         opts = optsWCOW {| wcow_ID := wcow_ID wopts; wcow_Owner := wcow_Owner wopts;
                            wcow_LayerFolders := layers |}
         ∧ h !! s_ptr layers = None
         ∧ slice_read h' layers = <[pred (length ls) := vmPath]> ls)
  ∧ (ls ≠ [] → os_MkdirAll P vmPath 0 = None →
     ∃ opts, BoundaryCreate opts ∈ tr).
Proof.
  intros Hct Hver Hiso Hopts Hw Hvalid ls vmPath.
  pose proof (createWCOW_layers P h s w wopts Hw Hvalid) as Hc.
  simpl in Hc. fold ls vmPath in Hc.
  unfold newHcsStandaloneTask, provision. rewrite Hct, Hiso, Hopts.
  rewrite bool_decide_eq_false_2 by (by intros ?).
  rewrite bool_decide_eq_true_2 by done. simpl.
  destruct (createWCOW P h s wopts) as [[st h1] tr1].
  destruct Hc as (Hframe & Hshape & Hreach).
  pose proof (slice_read_frame h h1 _ Hvalid Hframe) as Hsame.
  assert (∀ opts, BoundaryCreate opts ∈ tr1 →
            ∃ layers,
              opts = optsWCOW {| wcow_ID := wcow_ID wopts;
                                 wcow_Owner := wcow_Owner wopts;
                                 wcow_LayerFolders := layers |}
              ∧ h !! s_ptr layers = None
              ∧ slice_read h1 layers = <[pred (length ls) := vmPath]> ls) as Hgiven.
  { intros opts Hin. destruct Hshape as [->|[->|[-> Hnew]]].
    - by apply elem_of_nil in Hin.
    - apply elem_of_cons in Hin as [Hin|Hin]; [discriminate Hin|].
      by apply elem_of_nil in Hin.
    - apply elem_of_cons in Hin as [Hin|Hin]; [discriminate Hin|].
      apply elem_of_cons in Hin as [[= ->]|Hin]; [|by apply elem_of_nil in Hin].
      eexists. split_and!; [done|apply fresh_unallocated|exact Hnew]. }
  assert (ls ≠ [] → os_MkdirAll P vmPath 0 = None →
          ∀ tr2, ∃ opts, BoundaryCreate opts ∈ tr1 ++ tr2) as Hreached.
  { intros Hne Hok tr2. rewrite (Hreach Hne Hok). eexists.
    rewrite elem_of_app, !elem_of_cons. auto. }
  assert (∀ trs tr2 vm,
            (∀ x, x ∈ trs → ∃ vm', x = BoundaryStart vm' ∨ x = BoundaryClose vm') →
            (∀ x, x ∈ tr2 → ∃ vm', x = BoundaryClose vm') →
            ∀ opts,
              BoundaryCreate opts ∈
                (tr1 ++ trs) ++ (newHcsTask P K (Some vm) true req s).2 ++ tr2 →
              BoundaryCreate opts ∈ tr1) as Honly.
  { intros trs tr2 vm Htrs Htr2 opts Hin.
    rewrite !elem_of_app in Hin. destruct Hin as [[Hin|Hin]|[Hin|Hin]]; [done|..].
    - apply Htrs in Hin as [vm' [?|?]]; discriminate.
    - by apply newHcsTask_trace in Hin.
    - apply Htr2 in Hin as [vm' ?]; discriminate. }
  destruct st as [parent|err|].
  - assert (∃ trs, (∀ x, x ∈ trs → ∃ vm', x = BoundaryStart vm' ∨ x = BoundaryClose vm')
                   ∧ (let '(st', h', tr') :=
                        match uvm_Start P parent with
                        | Some _ =>
                            (Continue (Some parent), h1,
                             tr1 ++ [BoundaryStart parent; BoundaryClose parent])
                        | None =>
                            (Continue (Some parent), h1, tr1 ++ [BoundaryStart parent])
                        end in
                      st' = Continue (Some parent) ∧ h' = h1 ∧ tr' = tr1 ++ trs))
      as (trs & Htrs & Hstart).
    { destruct (uvm_Start P parent); eexists; (split; [|done]);
        intros x Hin; repeat (apply elem_of_cons in Hin as [->|Hin]; [eauto|]);
        by apply elem_of_nil in Hin. }
    destruct (match uvm_Start P parent with Some _ => _ | None => _ end)
      as [[st' h'] tr'].
    destruct Hstart as (-> & -> & ->).
    pose proof (λ tr2, Honly trs tr2 parent Htrs) as Honly'.
    destruct (newHcsTask P K (Some parent) true req s) as [[shim [err|]] tr2];
      simpl in Honly'.
    + split_and!; [done|done| |].
      * intros opts Hin. apply Hgiven.
        apply (Honly' [BoundaryClose parent]); [|done].
        intros x ->%list_elem_of_singleton. eauto.
      * intros Hne Hok. rewrite <- app_assoc. by apply Hreached.
    + split_and!; [done|done| |].
      * intros opts Hin. apply Hgiven.
        apply (Honly' []); [by intros x ?%elem_of_nil|].
        by rewrite app_nil_r.
      * intros Hne Hok. rewrite <- app_assoc. by apply Hreached.
  - split_and!; [done|done|done|]. intros Hne Hok.
    destruct (Hreached Hne Hok []) as [opts Hin]. rewrite app_nil_r in Hin. eauto.
  - split_and!; [done|done|done|]. intros Hne Hok.
    destruct (Hreached Hne Hok []) as [opts Hin]. rewrite app_nil_r in Hin. eauto.
Qed.

Lemma layers_copied_for_boundary_witness :
  let '(_, h', tr) :=
    newHcsStandaloneTask (testProvisioner true None) testConstructors
      wcowHeap testRequest wcowSpec in
  slice_read h' wcowLayers = ["C:\layers\base"; "C:\layers\scratch"]
  ∧ ∃ layers,
      BoundaryCreate
        (optsWCOW {| wcow_ID := "t1@vm";
                     wcow_Owner := "containerd-shim-runhcs-v1.exe";
                     wcow_LayerFolders := layers |}) ∈ tr
      ∧ slice_read h' layers = ["C:\layers\base"; "C:\layers\scratch\vm"].
Proof.
  pose proof (layers_copied_for_boundary (testProvisioner true None)
                testConstructors wcowHeap testRequest wcowSpec ""
                {| wcow_ID := "t1@vm";
                   wcow_Owner := "containerd-shim-runhcs-v1.exe";
                   wcow_LayerFolders := wcowLayers |}
                {| LayerFolders := wcowLayers; Network := None |}
                eq_refl) as Hc.
  destruct (newHcsStandaloneTask _ _ _ _ _) as [[out h'] tr].
  destruct Hc as (_ & Hsame & Hgiven & Hreached).
  - vm_compute. discriminate.
  - reflexivity.
  - reflexivity.
  - reflexivity.
  - eexists. split; [reflexivity|]. simpl. lia.
  - split; [exact Hsame|].
    destruct Hreached as [opts Hin]; [discriminate|reflexivity|].
    destruct (Hgiven opts Hin) as (layers & -> & _ & Hread). eauto.
Defined.

Lemma terminate_after_failed_shutdown_witness :
  (∃ logs post,
     waitForExit pendingShutdown isolatedTask =
     InitWaited :: ContainerShutdown :: ContainerWaitTimeout (5 * time_Minute)
     :: logs ++ ContainerTerminate :: post
     ∧ Forall is_log logs)
  ∧ ∃ pre post,
      waitForExit pendingTerminate isolatedTask =
      pre ++ ContainerTerminate :: ContainerWaitTimeout (30 * time_Second) :: post.
Proof.
  split.
  - destruct (terminate_after_failed_shutdown pendingShutdown isolatedTask)
      as (_ & Horder & _).
    destruct (Horder hcsPending) as (logs & post & Heq & Hlogs & _).
    + unfold waitForExit, isolatedTask. simpl.
      apply list_elem_of_further, list_elem_of_here.
    + reflexivity.
    + by exists logs, post.
  - destruct (terminate_after_failed_shutdown pendingTerminate isolatedTask)
      as (Hiff & _ & _ & Hwait).
    apply Hwait; [reflexivity|].
    apply Hiff. split; [|by eexists].
    unfold waitForExit, isolatedTask. simpl.
    apply list_elem_of_further, list_elem_of_here.
Defined.

Lemma boundary_closed_last_witness :
  ∃ ht,
    (newHcsTask (testProvisioner false None) testConstructors (Some testVM) true
       testRequest lcowSpec).1.1 = Some ht
    ∧ BoundaryClose testVM ∈ waitForExit pendingShutdown ht
    ∧ boundary_after_container pendingShutdown ht.
Proof.
  eexists. split; [vm_compute; reflexivity|].
  match goal with
  | |- _ ∈ waitForExit _ ?ht ∧ _ =>
      destruct (boundary_closed_last (testProvisioner false None) testConstructors
                  (Some testVM) true testRequest lcowSpec ht None
                  (newHcsTask (testProvisioner false None) testConstructors
                     (Some testVM) true testRequest lcowSpec).2
                  pendingShutdown)
        as (_ & _ & _ & Hiff & Hafter & _); [reflexivity|]
  end.
  split; [|exact Hafter]. apply Hiff. split; reflexivity.
Defined.

(** * Further properties *)

(** ** The registry operations of [hcsTask] *)

Section registry_more.
Context {E : Type} {HE : shimExec E}.
Implicit Types (ht : hcsTask E) (m : syncMap.t E) (eid k : string).

Lemma keys_Store_present m k v :
  is_Some (syncMap.Load m k) → syncMap.keys (syncMap.Store m k v) = syncMap.keys m.
Proof.
  unfold syncMap.keys. induction m as [|[k0 v0] m IH]; simpl.
  - by intros [? ?].
  - case_decide as Hk; simpl; [by subst|]. intros Hs. f_equal. by apply IH.
Qed.

Lemma keys_Store_absent m k v :
  syncMap.Load m k = None → syncMap.keys (syncMap.Store m k v) = syncMap.keys m ++ [k].
Proof.
  unfold syncMap.keys. induction m as [|[k0 v0] m IH]; simpl; [done|].
  case_decide as Hk; [done|]. simpl. intros Hs. f_equal. by apply IH.
Qed.

Lemma Load_None_keys m k : syncMap.Load m k = None ↔ k ∉ syncMap.keys m.
Proof.
  unfold syncMap.keys. induction m as [|[k0 v0] m IH]; simpl.
  - split; [intros _ ?%elem_of_nil; done|done].
  - rewrite not_elem_of_cons. case_decide as Hk.
    + split; [done|]. intros [? _]. congruence.
    + rewrite IH. split; [by split|by intros [_ ?]].
Qed.

Lemma keys_Delete m k : syncMap.keys (syncMap.Delete m k) = filter (λ x, x ≠ k) (syncMap.keys m).
Proof.
  unfold syncMap.keys, syncMap.Delete. induction m as [|[k0 v0] m IH]; [done|].
  rewrite fmap_cons. simpl. destruct (decide (k0 ≠ k)) as [Hk|Hk].
  - rewrite !filter_cons_True by done. rewrite fmap_cons. simpl. by f_equal.
  - rewrite !filter_cons_False by done. done.
Qed.

Lemma GetExec_is_Some ht eid e :
  GetExec ht eid = inl e → eid ≠ "" → syncMap.Load (execs ht) eid = Some e.
Proof.
  intros Hget Hne. rewrite GetExec_named in Hget by done.
  destruct (syncMap.Load (execs ht) eid); by simplify_eq.
Qed.


(** What [KillExec] leaves of a task, as a lemma shared by the statements
    below. *)
Lemma KillExec_frame ht eid signal all :
  let '(_, ht', tr) := KillExec ht eid signal all in
  syncMap.keys (execs ht') = syncMap.keys (execs ht)
  ∧ id ht' = id ht ∧ c ht' = c ht ∧ cr ht' = cr ht
  ∧ host ht' = host ht ∧ ownsHost ht' = ownsHost ht
  ∧ Forall (λ x, ∃ k, x = Signalled k signal) tr.
Proof.
  unfold KillExec. destruct (GetExec ht eid) as [e|err] eqn:Hget; [|by split_and!].
  destruct (all && bool_decide (eid ≠ "")) eqn:Hall; [by split_and!|].
  destruct all; simpl in *.
  - apply bool_decide_eq_false_1, dec_stable in Hall. subst eid.
    rewrite kill_each_first. simpl.
    destruct (execs ht) as [|[k ex] m] eqn:Hm; simpl;
      destruct (Kill (init ht) signal) as [e' r] eqn:Hk;
      rewrite GetExec_init in Hget; simplify_eq; rewrite Hk; simpl.
    + split_and!; try done. repeat constructor. by eexists.
    + rewrite decide_True by done.
      split_and!; try done. repeat constructor; by eexists.
  - case_bool_decide as Heid.
    + subst eid. destruct (syncMap.Range check_exited (execs ht) false);
        [by split_and!|].
      destruct (Kill e signal) as [e' r]. unfold write_exec. rewrite decide_True by done.
      split_and!; try done. repeat constructor. by eexists.
    + destruct (Kill e signal) as [e' r]. unfold write_exec.
      rewrite decide_False by done. simpl.
      split_and!; try done.
      * apply keys_Store_present. rewrite (GetExec_is_Some _ _ _ Hget Heid). by eexists.
      * repeat constructor. by eexists.
Qed.

(** A successful [CreateExec] stored a new exec under an identifier that was
    not empty and not taken, while the init exec was running; the new exec is
    built on the container handle and the boundary of the task and is what
    [GetExec] returns for that identifier, every other identifier
    resolves as before, and the one event published is exec-added. *)
Theorem CreateExec_registers (K : constructors E) ht req spec :
  (CreateExec K ht req spec).1.1 = None →
  let ht' := (CreateExec K ht req spec).1.2 in
  epr_ExecID req ≠ ""
  ∧ syncMap.Load (execs ht) (epr_ExecID req) = None
  ∧ State (init ht) = shimExecStateRunning
  ∧ (∃ io,
       newRelay K (epr_Stdin req) (epr_Stdout req) (epr_Stderr req)
         (epr_Terminal req) = inl io
       ∧ GetExec ht' (epr_ExecID req)
         = inl (newHcsExec K (id ht) (host ht) (c ht) (epr_ExecID req)
                  (sr_Bundle (Status (init ht))) (isWCOW ht) spec io))
  ∧ (∀ k, k ≠ epr_ExecID req → GetExec ht' k = GetExec ht k)
  ∧ (CreateExec K ht req spec).2
    = [Published TaskExecAddedEventTopic (TaskExecAdded (id ht) (epr_ExecID req))].
Proof.
  unfold CreateExec.
  destruct (bool_decide (is_Some _) || bool_decide (epr_ExecID req = ""))
    eqn:Hdup; [done|].
  apply orb_false_iff in Hdup as [Hd1 Hd2].
  apply bool_decide_eq_false_1 in Hd1. apply bool_decide_eq_false_1 in Hd2.
  case_bool_decide as Hrun; [done|].
  destruct (newRelay K _ _ _ _) as [io|err]; [|done].
  intros _. simpl.
  assert (syncMap.Load (execs ht) (epr_ExecID req) = None) as Hnone.
  { destruct (syncMap.Load (execs ht) (epr_ExecID req)); [|done].
    exfalso. apply Hd1. by eexists. }
  split_and!; try done.
  - eexists. split; [done|]. rewrite GetExec_named by done. simpl.
    by rewrite Load_Store, decide_True by done.
  - intros k Hk. unfold GetExec. simpl. case_decide; [done|].
    by rewrite Load_Store, decide_False by done.
Qed.

(** Once [CreateExec] has succeeded for an identifier, a second [CreateExec]
    for the same identifier answers already-exists, whatever else the second
    request holds, and changes nothing. *)
Theorem CreateExec_twice (K : constructors E) ht req spec req2 spec2 :
  (CreateExec K ht req spec).1.1 = None →
  epr_ExecID req2 = epr_ExecID req →
  let ht' := (CreateExec K ht req spec).1.2 in
  CreateExec K ht' req2 spec2 = (Some ErrAlreadyExists, ht', []).
Proof.
  intros Hok Hid ht'.
  assert (is_Some (syncMap.Load (execs ht') (epr_ExecID req))) as Hsome.
  { subst ht'. revert Hok. unfold CreateExec.
    destruct (_ || _); [done|]. case_bool_decide; [done|].
    destruct (newRelay K _ _ _ _); [|done]. intros _. simpl.
    rewrite Load_Store, decide_True by done. by eexists. }
  unfold CreateExec at 1. rewrite Hid.
  by rewrite (bool_decide_eq_true_2 _ Hsome).
Qed.

(** An identifier that is not empty and that the registry does not hold is
    not found by [GetExec], [KillExec] (with or without [all]) and
    [DeleteExec]; none of them changes the task, signals or publishes. *)
Theorem unknown_exec_not_found ht eid :
  eid ≠ "" →
  syncMap.Load (execs ht) eid = None →
  GetExec ht eid = inr ErrNotFound
  ∧ (∀ signal all, KillExec ht eid signal all = (Some ErrNotFound, ht, []))
  ∧ DeleteExec ht eid = (0, 0, Time_zero, Some ErrNotFound, ht, []).
Proof.
  intros Hne Hnone.
  assert (GetExec ht eid = inr ErrNotFound) as Hget
    by (by rewrite GetExec_named, Hnone).
  split_and!; [done| |].
  - intros signal all. unfold KillExec. by rewrite Hget.
  - unfold DeleteExec. by rewrite Hget.
Qed.

(** [KillExec] by name, without [all]: the named exec gets the signal
    whatever its state, the call returns what the [Kill] of that exec
    returned, and the init exec and the other execs are as before. *)
Theorem KillExec_named ht eid e signal :
  eid ≠ "" →
  syncMap.Load (execs ht) eid = Some e →
  let '(err, ht', tr) := KillExec ht eid signal false in
  err = (Kill e signal).2
  ∧ tr = [Signalled eid signal]
  ∧ syncMap.Load (execs ht') eid = Some (Kill e signal).1
  ∧ (∀ k, k ≠ eid → syncMap.Load (execs ht') k = syncMap.Load (execs ht) k)
  ∧ init ht' = init ht.
Proof.
  intros Hne Hload. unfold KillExec. rewrite GetExec_named, Hload by done. simpl.
  rewrite bool_decide_eq_false_2 by done.
  destruct (Kill e signal) as [e' r]. unfold write_exec. rewrite decide_False by done.
  simpl. split_and!; try done.
  - by rewrite Load_Store, decide_True.
  - intros k Hk. by rewrite Load_Store, decide_False.
Qed.

(** [KillExec] never adds, removes or renames an exec, never touches the
    container handle, the resources or the boundary of the task and never
    publishes.  All it does is deliver the signal it was given, to the exec
    that was named or to execs of the registry, and when it delivers any, the
    exec that was named is among the receivers.  The goroutines that deliver
    run concurrently in the source: this holds of the deliveries taken in
    any order. *)
Theorem KillExec_keeps_identifiers ht eid signal all :
  let '(_, ht', tr) := KillExec ht eid signal all in
  syncMap.keys (execs ht') = syncMap.keys (execs ht)
  ∧ id ht' = id ht ∧ c ht' = c ht ∧ cr ht' = cr ht
  ∧ host ht' = host ht ∧ ownsHost ht' = ownsHost ht
  ∧ ∀ tr', tr' ≡ₚ tr →
      Forall (λ x, ∃ k, x = Signalled k signal
                        ∧ (k = eid ∨ k ∈ syncMap.keys (execs ht))) tr'
      ∧ (tr' = [] ∨ Signalled eid signal ∈ tr').
Proof.
  assert (let '(_, _, tr) := KillExec ht eid signal all in
          Forall (λ x, ∃ k, x = Signalled k signal
                            ∧ (k = eid ∨ k ∈ syncMap.keys (execs ht))) tr
          ∧ (tr = [] ∨ Signalled eid signal ∈ tr)) as Hl.
  { unfold KillExec.
    destruct (GetExec ht eid) as [e|err] eqn:Hget; [|by split; [constructor|left]].
    destruct (all && bool_decide (eid ≠ "")) eqn:Hall;
      [by split; [constructor|left]|].
    destruct all; simpl in *.
    - apply bool_decide_eq_false_1, dec_stable in Hall. subst eid.
      rewrite kill_each_first. simpl.
      destruct (execs ht) as [|[k ex] m] eqn:Hm; simpl;
        destruct (Kill (init ht) signal) as [e' r] eqn:Hk;
        rewrite GetExec_init in Hget; simplify_eq; rewrite Hk; simpl.
      + split; [|right; apply list_elem_of_here].
        repeat constructor. eexists. split; [done|by left].
      + split; [|right; apply list_elem_of_further, list_elem_of_here].
        repeat constructor; eexists; (split; [done|]);
          [right; apply list_elem_of_here|by left].
    - assert (Forall (λ x, ∃ k, x = Signalled k signal
                                ∧ (k = eid ∨ k ∈ syncMap.keys (execs ht)))
                  ([] ++ [Signalled eid signal])
              ∧ ([] ++ [Signalled eid signal] = []
                 ∨ Signalled eid signal ∈ [] ++ [Signalled eid signal])) as Hone.
      { split; [|right; apply list_elem_of_here].
        repeat constructor. eexists. split; [done|by left]. }
      case_bool_decide as Heid.
      + destruct (syncMap.Range check_exited (execs ht) false);
          [by split; [constructor|left]|].
        destruct (Kill e signal) as [e' r]. by apply Hone.
      + destruct (Kill e signal) as [e' r]. by apply Hone. }
  pose proof (KillExec_frame ht eid signal all) as Hf.
  destruct (KillExec ht eid signal all) as [[err ht'] tr].
  destruct Hf as (? & ? & ? & ? & ? & ? & _). destruct Hl as [Hall Hnamed].
  split_and!; [done..|]. intros tr' Hp. split.
  - by rewrite Hp.
  - destruct Hnamed as [->|Hin]; [left; by apply Permutation_nil_r|right].
    by rewrite Hp.
Qed.

(** [DeleteExec] is all or nothing.  When it answers an error, the error is
    not-found or a precondition violation, the values returned are zero, the
    task is as before and nothing is published.  When it answers no error,
    the exec it was asked to delete had exited, and exactly its task-delete
    event is published. *)
Theorem DeleteExec_all_or_nothing ht eid :
  let '(pid, exitStatus, exitedAt, err, ht', tr) := DeleteExec ht eid in
  match err with
  | Some x =>
      (x = ErrNotFound ∨ x = ErrFailedPrecondition)
      ∧ (x = ErrNotFound ↔ eid ≠ "" ∧ syncMap.Load (execs ht) eid = None)
      ∧ pid = 0 ∧ exitStatus = 0 ∧ exitedAt = Time_zero
      ∧ ht' = ht ∧ tr = []
  | None =>
      ∃ e, GetExec ht eid = inl e
           ∧ State e = shimExecStateExited
           ∧ tr = [Published TaskDeleteEventTopic
                     (TaskDelete (id ht) eid (sr_Pid (Status e))
                        (sr_ExitStatus (Status e)) (sr_ExitedAt (Status e)))]
  end.
Proof.
  unfold DeleteExec. destruct (GetExec ht eid) as [e|err] eqn:Hget.
  - assert (¬ (eid ≠ "" ∧ syncMap.Load (execs ht) eid = None)) as Hfound.
    { intros [Hne Hnone]. rewrite GetExec_named, Hnone in Hget by done. done. }
    destruct (bool_decide (eid = "") && _).
    { split_and!; [by right|split; [done|by intros ?%Hfound]|done..]. }
    case_bool_decide as Hst.
    + split_and!; [by right|split; [done|by intros ?%Hfound]|done..].
    + by eexists.
  - unfold GetExec in Hget. case_decide as Hne; [done|].
    destruct (syncMap.Load (execs ht) eid) eqn:Hload; simplify_eq.
    split_and!; [by left|by split|done..].
Qed.

(** After [DeleteExec] has succeeded for an identifier that is not empty, the
    identifier is gone: [GetExec] and a second [DeleteExec] answer not-found.
    After it has succeeded for the init exec the task is as before, so a
    second [DeleteExec] of the init exec does the same again. *)
Theorem DeleteExec_again ht eid :
  (DeleteExec ht eid).1.1.2 = None →
  let ht' := (DeleteExec ht eid).1.2 in
  (eid ≠ "" →
     GetExec ht' eid = inr ErrNotFound
     ∧ DeleteExec ht' eid = (0, 0, Time_zero, Some ErrNotFound, ht', []))
  ∧ (eid = "" → ht' = ht ∧ DeleteExec ht' eid = DeleteExec ht eid).
Proof.
  unfold DeleteExec at 1 2. destruct (GetExec ht eid) as [e|err]; [|done].
  destruct (bool_decide (eid = "") && _); [done|].
  case_bool_decide; [done|]. simpl. intros _. split.
  - intros Hne. rewrite bool_decide_eq_true_2 by done.
    assert (GetExec (set_execs ht (syncMap.Delete (execs ht) eid)) eid
            = inr ErrNotFound) as Hget.
    { rewrite GetExec_named by done. simpl. by rewrite Load_Delete, decide_True. }
    split; [done|]. unfold DeleteExec. by rewrite Hget.
  - intros ->. by rewrite bool_decide_eq_false_2 by (by intros ?).
Qed.

(** The registry stays well formed: if no identifier is stored twice and the
    empty identifier is not stored, this is still so after [CreateExec],
    [KillExec] and [DeleteExec], whatever they are called with and whether
    or not they succeed. *)
Theorem registry_ok_preserved (K : constructors E) ht :
  registry_ok (execs ht) →
  (∀ req spec, registry_ok (execs (CreateExec K ht req spec).1.2))
  ∧ (∀ eid signal all, registry_ok (execs (KillExec ht eid signal all).1.2))
  ∧ (∀ eid, registry_ok (execs (DeleteExec ht eid).1.2)).
Proof.
  intros [Hnd Hemp]. split_and!.
  - intros req spec. unfold CreateExec.
    destruct (bool_decide (is_Some _) || bool_decide (epr_ExecID req = ""))
      eqn:Hdup; [done|].
    apply orb_false_iff in Hdup as [Hd1 Hd2].
    apply bool_decide_eq_false_1 in Hd1. apply bool_decide_eq_false_1 in Hd2.
    case_bool_decide; [done|]. destruct (newRelay K _ _ _ _); [|done]. simpl.
    assert (syncMap.Load (execs ht) (epr_ExecID req) = None) as Hnone.
    { destruct (syncMap.Load (execs ht) (epr_ExecID req)); [|done].
      exfalso. apply Hd1. by eexists. }
    unfold registry_ok. rewrite keys_Store_absent by done. split.
    + apply NoDup_app. split_and!; [done| |apply NoDup_singleton].
      intros x Hx ->%list_elem_of_singleton. by apply Load_None_keys in Hnone.
    + rewrite elem_of_app, list_elem_of_singleton. intros [?|?]; done.
  - intros eid signal all. pose proof (KillExec_frame ht eid signal all) as Hf.
    destruct (KillExec ht eid signal all) as [[err ht'] tr]. simpl.
    destruct Hf as (Hkeys & _). unfold registry_ok. by rewrite Hkeys.
  - intros eid. unfold DeleteExec. destruct (GetExec ht eid); [|done].
    destruct (bool_decide (eid = "") && _); [done|].
    case_bool_decide; [done|]. simpl. case_bool_decide; [|done]. simpl.
    unfold registry_ok. rewrite keys_Delete. split.
    + by apply NoDup_filter.
    + rewrite list_elem_of_filter. by intros [_ ?].
Qed.

End registry_more.

(** ** More on the teardown sequence *)

Section teardown_more.
Context {E : Type}.
Implicit Types (G : engine) (ht : hcsTask E) (x : effect).

Lemma stages_app (l1 l2 : list effect) : stages (l1 ++ l2) = stages l1 ++ stages l2.
Proof. apply List.filter_app. Qed.

Lemma waits_app (l1 l2 : list effect) : waits (l1 ++ l2) = waits l1 ++ waits l2.
Proof. apply omap_app. Qed.

Lemma stages_logs (l : list effect) : Forall is_log l → stages l = [].
Proof.
  induction 1 as [|x l Hx _ IH]; [done|]. by destruct x.
Qed.

Lemma waits_logs (l : list effect) : Forall is_log l → waits l = [].
Proof.
  induction 1 as [|x l Hx _ IH]; [done|]. by destruct x.
Qed.

Lemma stages_waits (l : list effect) : Forall is_wait_or_log l → stages l = [].
Proof.
  induction 1 as [|x l Hx _ IH]; [done|]. by destruct x.
Qed.

Lemma stages_afterShutdown G : stages (afterShutdown G) = [].
Proof.
  destruct (Shutdown G) as [err|] eqn:Hs.
  - destruct (afterShutdown_failed G err Hs) as (pre & -> & Hpre).
    rewrite stages_app, (stages_waits pre) by done. simpl.
    change (stages (afterTerminate G) = []).
    apply stages_waits, afterTerminate_parts.
  - by rewrite afterShutdown_ok.
Qed.

Lemma stages_closeContainer G ht :
  stages (closeContainer G ht)
  = [ContainerShutdown; ResourcesReleased (cr ht) (host ht) true; ContainerClose].
Proof.
  destruct (closeContainer_shape G ht) as (rl & cl & -> & Hrl & Hcl).
  change (ContainerShutdown :: afterShutdown G ++ ?r)
    with ([ContainerShutdown] ++ afterShutdown G ++ r).
  rewrite !stages_app, stages_afterShutdown. simpl.
  change (ResourcesReleased ?a ?b ?d :: rl ++ ?r)
    with ([ResourcesReleased a b d] ++ rl ++ r).
  rewrite !stages_app, (stages_logs rl) by done. simpl.
  change (stages (ContainerClose :: cl)) with (ContainerClose :: stages cl).
  by rewrite (stages_logs cl).
Qed.

Lemma stages_closeHost G ht :
  stages (closeHost G ht)
  = match host ht with
    | Some vm => if ownsHost ht then [BoundaryClose vm] else []
    | None => []
    end.
Proof.
  unfold closeHost. destruct (host ht) as [vm|]; [|done].
  destruct (ownsHost ht); [|done]. by destruct (host_Close G).
Qed.

Lemma waits_closeHost G ht : waits (closeHost G ht) = [].
Proof.
  unfold closeHost. destruct (host ht) as [vm|]; [|done].
  destruct (ownsHost ht); [|done]. by destruct (host_Close G).
Qed.

Lemma waits_waitForExit G ht :
  waits (waitForExit G ht)
  = match c ht with Some _ => waits (afterShutdown G) | None => [] end.
Proof.
  unfold waitForExit.
  change (InitWaited :: ?l ++ ?r) with ([InitWaited] ++ l ++ r).
  rewrite !waits_app, waits_closeHost, app_nil_r. simpl.
  destruct (c ht); [|done].
  destruct (closeContainer_shape G ht) as (rl & cl & -> & Hrl & Hcl).
  change (ContainerShutdown :: afterShutdown G ++ ?r)
    with ([ContainerShutdown] ++ afterShutdown G ++ r).
  rewrite !waits_app. simpl.
  change (ResourcesReleased ?a ?b ?d :: rl ++ ?r)
    with ([ResourcesReleased a b d] ++ rl ++ r).
  rewrite !waits_app, (waits_logs rl) by done. simpl.
  change (waits (ContainerClose :: cl)) with (waits cl).
  by rewrite (waits_logs cl), app_nil_r.
Qed.

(** Whatever the engine answers, the sequencer goes through the same stages
    once each and in the same order: for a task with a container handle the
    shutdown, the release of the resources and the close of the handle, and
    then, for a task that owns a boundary, the close of the boundary.  No
    failure of a stage keeps a later stage from running. *)
Theorem teardown_stages G ht :
  stages (waitForExit G ht)
  = match c ht with
    | Some _ =>
        [ContainerShutdown; ResourcesReleased (cr ht) (host ht) true; ContainerClose]
    | None => []
    end
    ++ match host ht with
       | Some vm => if ownsHost ht then [BoundaryClose vm] else []
       | None => []
       end.
Proof.
  unfold waitForExit.
  change (InitWaited :: ?l ++ ?r) with ([InitWaited] ++ l ++ r).
  rewrite !stages_app, stages_closeHost. simpl.
  destruct (c ht); [|done]. by rewrite stages_closeContainer.
Qed.

(** The sequencer waits at most twice: for 5 minutes exactly when the
    graceful shutdown of an existing handle reports pending, and for 30
    seconds exactly when the forced terminate that follows a failed shutdown
    reports pending.  All in all it never waits longer than 330 seconds. *)
Theorem teardown_waits G ht :
  (shutdownTimeout ∈ waits (waitForExit G ht) ↔
     is_Some (c ht) ∧ ∃ err, Shutdown G = Some err ∧ IsPending err = true)
  ∧ (terminateTimeout ∈ waits (waitForExit G ht) ↔
     is_Some (c ht) ∧ is_Some (Shutdown G)
     ∧ ∃ err, Terminate G = Some err ∧ IsPending err = true)
  ∧ (length (waits (waitForExit G ht)) ≤ 2)%nat
  ∧ (0 ≤ total_wait (waitForExit G ht) ≤ 330 * time_Second)%Z.
Proof.
  unfold total_wait. rewrite waits_waitForExit.
  destruct (c ht) as [sys|].
  2:{ split_and!; [| |simpl; unfold time_Second; lia..];
        (split; [by intros ?%elem_of_nil|by intros [[? [=]] _]]). }
  unfold afterShutdown, afterTerminate.
  split_and!.
  - split.
    + intros Hin. split; [by eexists|].
      destruct (Shutdown G) as [[]|], (WaitTimeout G shutdownTimeout),
        (Terminate G) as [[]|], (WaitTimeout G terminateTimeout);
        simpl in Hin;
        first
          [ by eexists
          | exfalso;
            repeat (apply elem_of_cons in Hin as [Hin|Hin];
                    [by vm_compute in Hin|]);
            by apply elem_of_nil in Hin ].
    + intros (_ & err & -> & Hp). destruct err; try discriminate Hp.
      simpl. apply list_elem_of_here.
  - split.
    + intros Hin. split; [by eexists|].
      destruct (Shutdown G) as [[]|], (WaitTimeout G shutdownTimeout),
        (Terminate G) as [[]|], (WaitTimeout G terminateTimeout);
        simpl in Hin;
        first
          [ by (split; by eexists)
          | exfalso;
            repeat (apply elem_of_cons in Hin as [Hin|Hin];
                    [by vm_compute in Hin|]);
            by apply elem_of_nil in Hin ].
    + intros (_ & [e ->] & err & -> & Hp). destruct err; try discriminate Hp.
      destruct e, (WaitTimeout G shutdownTimeout); simpl;
        rewrite !elem_of_cons; auto.
  - destruct (Shutdown G) as [[]|], (WaitTimeout G shutdownTimeout),
      (Terminate G) as [[]|], (WaitTimeout G terminateTimeout); simpl; lia.
  - destruct (Shutdown G) as [[]|], (WaitTimeout G shutdownTimeout),
      (Terminate G) as [[]|], (WaitTimeout G terminateTimeout); simpl;
      unfold shutdownTimeout, terminateTimeout, time_Minute, time_Second; lia.
  - destruct (Shutdown G) as [[]|], (WaitTimeout G shutdownTimeout),
      (Terminate G) as [[]|], (WaitTimeout G terminateTimeout); simpl;
      unfold shutdownTimeout, terminateTimeout, time_Minute, time_Second; lia.
Qed.

End teardown_more.

(** A run in which no call fails consists of the stages and nothing else:
    nothing is logged, nothing is waited for and the container is not
    terminated by force.  An alreadyClosed answer to the close of the handle
    counts as no failure. *)
Theorem teardown_quiet {E : Type} (G : engine) (ht : hcsTask E) :
  Shutdown G = None →
  ReleaseResources G = None →
  Close G = None ∨ Close G = Some hcsAlreadyClosed →
  host_Close G = None →
  waitForExit G ht
  = InitWaited ::
    match c ht with
    | Some _ =>
        [ContainerShutdown; ResourcesReleased (cr ht) (host ht) true; ContainerClose]
    | None => []
    end
    ++ match host ht with
       | Some vm => if ownsHost ht then [BoundaryClose vm] else []
       | None => []
       end.
Proof.
  intros Hs Hr Hc Hh. unfold waitForExit, closeContainer, closeHost, afterShutdown.
  rewrite Hs, Hr, Hh. by destruct Hc as [-> | ->].
Qed.

(** ** More on task creation *)

Section creation_more.
Context {E : Type} {HE : shimExec E}.
Variable P : provisioner.
Variable K : constructors E.
Implicit Types (h : heap) (req : CreateTaskRequest) (s : Spec).

Lemma newHcsTask_shape parent owns req s :
  let '(shim, err, tr) := newHcsTask P K parent owns req s in
  Forall (λ x, is_boundary_effect x = false) tr
  ∧ (err = None →
     ∃ ht, shim = Some ht ∧ id ht = ctr_ID req ∧ host ht = parent
           ∧ ownsHost ht = owns ∧ is_Some (c ht) ∧ execs ht = []
           ∧ isWCOW ht = IsWCOW P s).
Proof.
  unfold newHcsTask. destruct (os_Executable P); [|by split].
  destruct (newRelay K _ _ _ _); [|by split].
  destruct (CreateContainer P _) as [[sys res]|err].
  - split; [repeat constructor|]. intros _. eexists. by split_and!.
  - split; [repeat constructor|done].
Qed.

Lemma createWCOW_trace h s wopts :
  Forall is_provisioning (createWCOW P h s wopts).2.
Proof.
  unfold createWCOW. destruct (spec_Windows s) as [w|]; [|by constructor].
  destruct (make h _) as [h1 layers].
  destruct (slice_index _ _ _); [|by constructor].
  destruct (os_MkdirAll P _ _); [by repeat constructor|].
  destruct (slice_assign _ _ _ _); [|by repeat constructor].
  destruct (CreateWCOW P _); by repeat constructor.
Qed.

Lemma createLCOW_trace h lopts :
  (createLCOW P h lopts).1.2 = h ∧ Forall is_provisioning (createLCOW P h lopts).2.
Proof. unfold createLCOW. destruct (CreateLCOW P lopts); split; by repeat constructor. Qed.

(** How the provisioning of the boundary can end. *)
Lemma provision_shape h req s owner :
  let '(st, h', tr) := provision P h req s owner in
  match st with
  | Continue (Some vm) =>
      (osversion_RS5 P ≤ osversion_Build P)%Z ∧ IsIsolated P s = true
      ∧ ∃ tr0, Forall is_provisioning tr0
               ∧ tr = tr0 ++ BoundaryStart vm ::
                        match uvm_Start P vm with
                        | Some _ => [BoundaryClose vm]
                        | None => []
                        end
  | Continue None =>
      ¬ ((osversion_RS5 P ≤ osversion_Build P)%Z ∧ IsIsolated P s = true)
      ∧ IsWCOW P s = true ∧ h' = h ∧ tr = []
  | ReturnErr _ | Panic => Forall is_provisioning tr
  end.
Proof.
  unfold provision. case_bool_decide as Hver; simpl.
  - destruct (IsIsolated P s) eqn:Hiso.
    + destruct (SpecToUVMCreateOpts P s _ owner) as [opts|err]; [|by constructor].
      assert (Forall is_provisioning
                (match opts with
                 | optsLCOW lopts => createLCOW P h lopts
                 | optsWCOW wopts => createWCOW P h s wopts
                 end).2) as Htr.
      { destruct opts; [apply createLCOW_trace|apply createWCOW_trace]. }
      destruct (match opts with optsLCOW _ => _ | optsWCOW _ => _ end)
        as [[[parent|err|] h1] tr1]; simpl in Htr; [|done..].
      destruct (uvm_Start P parent) eqn:Hstart; rewrite ?Hstart;
        (split_and!; [done|done|]); by eexists.
    + destruct (IsWCOW P s); simpl; [|by constructor].
      split_and!; try done. by intros [_ ?].
  - destruct (IsWCOW P s); simpl; [|by constructor].
    split_and!; try done. by intros [? _].
Qed.


Lemma provisioning_not_start (l : list effect) x :
  Forall is_provisioning l → x ∈ l → is_provisioning x.
Proof. rewrite Forall_forall. auto. Qed.

Lemma not_boundary_effect (l : list effect) x :
  Forall (λ x, is_boundary_effect x = false) l → x ∈ l → is_boundary_effect x = false.
Proof. rewrite Forall_forall. auto. Qed.

(** [newHcsTask] is all or nothing.  When it answers an error it returns no
    task, launches no sequencer and publishes nothing.  When it answers no
    error, the task it returns has the identifier of the request, the parent
    and the ownership flag it was given, a container handle and an empty
    registry; the container was created inside the parent, the sequencer was
    launched, and the task-create event with the pid of the init exec
    (reduced to 32 bits) was published last. *)
Theorem newHcsTask_all_or_nothing parent owns req s :
  let '(shim, err, tr) := newHcsTask P K parent owns req s in
  match err with
  | Some _ =>
      shim = None
      ∧ (∀ x, x ∈ tr → ∃ opts, x = ContainerCreate opts)
  | None =>
      ∃ ht opts,
        shim = Some ht
        ∧ tr = [ContainerCreate opts; SequencerLaunched (ctr_ID req);
                Published TaskCreateEventTopic
                  (TaskCreate (ctr_ID req) (ctr_Bundle req) (ctr_Rootfs req)
                     {| io_Stdin := ctr_Stdin req; io_Stdout := ctr_Stdout req;
                        io_Stderr := ctr_Stderr req;
                        io_Terminal := ctr_Terminal req |}
                     "" (uint32 (Pid (init ht))))]
        ∧ id ht = ctr_ID req ∧ host ht = parent ∧ ownsHost ht = owns
        ∧ is_Some (c ht) ∧ execs ht = [] ∧ isWCOW ht = IsWCOW P s
        ∧ co_ID opts = ctr_ID req ∧ co_HostingSystem opts = parent
  end.
Proof.
  unfold newHcsTask. destruct (os_Executable P); [|by split; [|intros ? ?%elem_of_nil]].
  destruct (newRelay K _ _ _ _); [|by split; [|intros ? ?%elem_of_nil]].
  destruct (CreateContainer P _) as [[sys res]|err].
  - do 2 eexists. split_and!; first [reflexivity|by eexists].
  - split; [done|]. intros x ->%list_elem_of_singleton. by eexists.
Qed.

(** A specification whose sandbox annotations cannot be read, or that names
    the container as a member of a pod, is refused before anything is done:
    no effect, no change to the heap, no task.  The first answers the error
    of the reader, the second a precondition violation. *)
Theorem standalone_validates_first h req s :
  (∀ err, GetSandboxTypeAndID P (Annotations s) = inr err →
     newHcsStandaloneTask P K h req s = (Returned None (Some err), h, []))
  ∧ (∀ ct sid, GetSandboxTypeAndID P (Annotations s) = inl (ct, sid) →
       ct ≠ KubernetesContainerTypeNone →
       newHcsStandaloneTask P K h req s
       = (Returned None (Some ErrFailedPrecondition), h, [])).
Proof.
  split.
  - intros err Hg. unfold newHcsStandaloneTask. by rewrite Hg.
  - intros ct sid Hg Hct. unfold newHcsStandaloneTask. rewrite Hg.
    by rewrite bool_decide_eq_true_2.
Qed.

(** Without isolation (the host is older than RS5 or the specification does
    not ask for it) no boundary is provisioned, started or closed and the
    heap is as before.  A specification that is not a Windows container is
    then refused as a precondition violation without any effect, and a task
    that is returned has no boundary, of which it is the owner. *)
Theorem standalone_without_boundary h req s sid :
  GetSandboxTypeAndID P (Annotations s) = inl (KubernetesContainerTypeNone, sid) →
  (osversion_Build P < osversion_RS5 P)%Z ∨ IsIsolated P s = false →
  let '(out, h', tr) := newHcsStandaloneTask P K h req s in
  h' = h
  ∧ Forall (λ x, is_boundary_effect x = false) tr
  ∧ (IsWCOW P s = false →
     out = Returned None (Some ErrFailedPrecondition) ∧ tr = [])
  ∧ (∀ ht, out = Returned (Some ht) None →
     host ht = None ∧ ownsHost ht = true ∧ IsWCOW P s = true).
Proof.
  intros Hg Hno. unfold newHcsStandaloneTask, provision. rewrite Hg.
  rewrite bool_decide_eq_false_2 by (by intros ?).
  assert (bool_decide (osversion_RS5 P ≤ osversion_Build P)%Z && IsIsolated P s
          = false) as ->.
  { destruct Hno as [Hlt| ->]; [|by rewrite andb_false_r].
    by rewrite bool_decide_eq_false_2 by lia. }
  destruct (IsWCOW P s); simpl.
  - pose proof (newHcsTask_shape None true req s) as Hs.
    destruct (newHcsTask P K None true req s) as [[shim [err|]] tr2];
      destruct Hs as [Htr Hok]; simpl.
    + rewrite app_nil_r. by split_and!.
    + destruct (Hok eq_refl) as (ht & -> & _ & Hh & Ho & _).
      split_and!; try done. by intros ht' [= <-].
  - by split_and!.
Qed.

(** Once a boundary has been started the creation either returns a task or
    rolls back.  If it answers an error, it returns no task and the last
    thing it does is close that boundary.  If it answers no error, the task
    it returns holds that boundary as its owner, and when the start had
    succeeded the boundary is not closed. *)
Theorem standalone_rollback h req s vm :
  let '(out, _, tr) := newHcsStandaloneTask P K h req s in
  BoundaryStart vm ∈ tr →
  match out with
  | Returned shim (Some _) => shim = None ∧ last tr = Some (BoundaryClose vm)
  | Returned shim None =>
      ∃ ht, shim = Some ht ∧ host ht = Some vm ∧ ownsHost ht = true
            ∧ (uvm_Start P vm = None → ∀ vm', BoundaryClose vm' ∉ tr)
  | Panicked => False
  end.
Proof.
  unfold newHcsStandaloneTask.
  destruct (GetSandboxTypeAndID P (Annotations s)) as [[ct sid]|err];
    [|by intros ?%elem_of_nil].
  case_bool_decide; [by intros ?%elem_of_nil|].
  pose proof (provision_shape h req s (filepath_Base P (os_Args0 P))) as Hp.
  destruct (provision P h req s _) as [[[[parent|]|err|] h1] tr1].
  - destruct Hp as (_ & _ & tr0 & Htr0 & ->).
    pose proof (newHcsTask_shape (Some parent) true req s) as Hs.
    destruct (newHcsTask P K (Some parent) true req s) as [[shim [err|]] tr2];
      destruct Hs as [Htr2 Hok].
    + intros Hin. split; [done|].
      assert (vm = parent) as ->.
      { rewrite !elem_of_app, elem_of_cons in Hin.
        destruct Hin as [[Hin|[[= ->]|Hin]]|[Hin|Hin]]; [|done|..].
        - by apply (provisioning_not_start _ _ Htr0) in Hin.
        - destruct (uvm_Start P parent); [|by apply elem_of_nil in Hin].
          by apply list_elem_of_singleton in Hin.
        - by apply (not_boundary_effect _ _ Htr2) in Hin.
        - by apply list_elem_of_singleton in Hin. }
      by rewrite !app_assoc, last_snoc.
    + intros Hin. destruct (Hok eq_refl) as (ht & -> & _ & Hh & Ho & _).
      assert (vm = parent) as ->.
      { rewrite !elem_of_app, elem_of_cons in Hin.
        destruct Hin as [[Hin|[[= ->]|Hin]]|Hin]; [|done|..].
        - by apply (provisioning_not_start _ _ Htr0) in Hin.
        - destruct (uvm_Start P parent); [|by apply elem_of_nil in Hin].
          by apply list_elem_of_singleton in Hin.
        - by apply (not_boundary_effect _ _ Htr2) in Hin. }
      eexists. split_and!; try done.
      intros -> vm' Hc. rewrite !elem_of_app, elem_of_cons in Hc.
      destruct Hc as [[Hc|[Hc|Hc]]|Hc]; [|done|..].
      * by apply (provisioning_not_start _ _ Htr0) in Hc.
      * by apply elem_of_nil in Hc.
      * by apply (not_boundary_effect _ _ Htr2) in Hc.
  - destruct Hp as (_ & _ & _ & ->).
    pose proof (newHcsTask_shape None true req s) as Hs.
    destruct (newHcsTask P K None true req s) as [[shim [err|]] tr2];
      destruct Hs as [Htr2 _]; simpl; rewrite ?app_nil_r;
      intros Hin; by apply (not_boundary_effect _ _ Htr2) in Hin.
  - intros Hin. by apply (provisioning_not_start _ _ Hp) in Hin.
  - intros Hin. by apply (provisioning_not_start _ _ Hp) in Hin.
Qed.

(** Creation followed by teardown: a task that [newHcsStandaloneTask] returns
    has the identifier of the request, an empty registry and a container
    handle, and it owns its boundary if it has one.  Whatever the engine
    answers, its sequencer shuts the container down, releases the resources,
    closes the handle and then closes that boundary. *)
Theorem created_task_teardown h req s ht (G : engine) :
  (newHcsStandaloneTask P K h req s).1.1 = Returned (Some ht) None →
  id ht = ctr_ID req ∧ execs ht = [] ∧ ownsHost ht = true
  ∧ stages (waitForExit G ht)
    = [ContainerShutdown; ResourcesReleased (cr ht) (host ht) true; ContainerClose]
      ++ match host ht with Some vm => [BoundaryClose vm] | None => [] end.
Proof.
  unfold newHcsStandaloneTask.
  destruct (GetSandboxTypeAndID P (Annotations s)) as [[ct sid]|err]; [|done].
  case_bool_decide; [done|].
  destruct (provision P h req s _) as [[[parent|err|] h1] tr1]; [|done..].
  pose proof (newHcsTask_shape parent true req s) as Hs.
  destruct (newHcsTask P K parent true req s) as [[shim [err|]] tr2]; [done|].
  destruct Hs as [_ Hok]. destruct (Hok eq_refl) as (ht' & -> & Hid & Hh & Ho & [sys Hc] & He & _).
  intros [= <-]. split_and!; [done..|].
  unfold waitForExit.
  change (InitWaited :: ?l ++ ?r) with ([InitWaited] ++ l ++ r).
  rewrite !stages_app, stages_closeHost, Hc, stages_closeContainer, Ho. simpl.
  by destruct (host ht').
Qed.

(** A Windows-guest isolated request whose specification lists no layer
    folder makes the creation panic on the index of the last layer, before
    any directory is made and before any boundary is provisioned; the arrays
    of the heap are as before. *)
Theorem standalone_no_layers_panics h req s sid wopts w :
  GetSandboxTypeAndID P (Annotations s) = inl (KubernetesContainerTypeNone, sid) →
  (osversion_RS5 P ≤ osversion_Build P)%Z →
  IsIsolated P s = true →
  SpecToUVMCreateOpts P s (ctr_ID req ++ "@vm")%string (filepath_Base P (os_Args0 P))
    = inl (optsWCOW wopts) →
  spec_Windows s = Some w →
  s_len (LayerFolders w) = 0%nat →
  let '(out, h', tr) := newHcsStandaloneTask P K h req s in
  out = Panicked ∧ tr = []
  ∧ (∀ p arr, h !! p = Some arr → h' !! p = Some arr).
Proof.
  intros Hg Hver Hiso Hopts Hw Hlen.
  unfold newHcsStandaloneTask, provision, createWCOW.
  rewrite Hg, Hiso, Hopts, Hw, Hlen.
  rewrite bool_decide_eq_false_2 by (by intros ?).
  rewrite bool_decide_eq_true_2 by done. simpl.
  split_and!; [done..|].
  intros p arr Hp. unfold copy. simpl.
  assert (p ≠ fresh (dom h)) as Hne.
  { intros ->. by rewrite fresh_unallocated in Hp. }
  by rewrite lookup_alter_ne, lookup_insert_ne.
Qed.

End creation_more.

(** ** The test doubles *)

Lemma Load_Store_Delete {V : Type} (m : syncMap.t V) k v k' :
  syncMap.Load (syncMap.Delete (syncMap.Store m k v) k) k'
  = if decide (k' = k) then None else syncMap.Load m k'.
Proof.
  rewrite Load_Delete. case_decide; [done|].
  rewrite Load_Store. by rewrite decide_False by done.
Qed.

Lemma filter_all {A : Type} (P : A → Prop) `{∀ x, Decision (P x)} (l : list A) :
  (∀ x, P x) → filter P l = l.
Proof.
  intros HP. induction l as [|x l IH]; [done|].
  by rewrite filter_cons_True, IH.
Qed.

(** [DeleteExec] of the test double does not look at the state of the exec.
    For an identifier it does not know it answers not-found and changes
    nothing.  Otherwise it answers the pid reduced to 32 bits, the exit
    status 255 and the zero time; a named exec is then gone from the map and
    from what [Pids] lists, the other execs and the init exec stay. *)
Theorem testShimTask_DeleteExec_spec (tst : testShimTask) (eid : string) :
  let '(pid, exitStatus, exitedAt, err, tst') := testShimTask_DeleteExec tst eid in
  match testShimTask_GetExec tst eid with
  | inr _ =>
      err = Some ErrNotFound ∧ pid = 0 ∧ exitStatus = 0 ∧ exitedAt = Time_zero
      ∧ tst' = tst
  | inl e =>
      err = None ∧ pid = tse_pid e mod 2 ^ 32 ∧ exitStatus = 255
      ∧ exitedAt = Time_zero
      ∧ tst_exec tst' = tst_exec tst
      ∧ (∀ k, syncMap.Load (tst_execs tst') k
              = if decide (k = eid ∧ eid ≠ "") then None
                else syncMap.Load (tst_execs tst) k)
      ∧ (testShimTask_Pids tst').1
        = (tse_pid (tst_exec tst), tse_id (tst_exec tst))
          :: map (λ kp, (tse_pid kp.2, tse_id kp.2))
               (filter (λ kp, eid = "" ∨ kp.1 ≠ eid) (tst_execs tst))
  end.
Proof.
  unfold testShimTask_DeleteExec.
  destruct (testShimTask_GetExec tst eid) as [e|err] eqn:Hget.
  - split_and!; try done.
    + by case_bool_decide.
    + intros k. case_bool_decide as Hne; simpl.
      * rewrite Load_Delete.
        destruct (decide (k = eid ∧ eid ≠ "")) as [[-> _]|Hn];
          [by rewrite decide_True|].
        rewrite decide_False; [done|]. intros ->. by apply Hn.
      * rewrite decide_False; [done|]. by intros [_ ?].
    + rewrite testShimTask_Pids_all. f_equal. case_bool_decide as Hne; simpl.
      * f_equal. apply (f_equal (map _)). unfold syncMap.Delete.
        apply list_filter_iff.
        intros [k v]. simpl. split; [by right|]. by intros [?|?].
      * f_equal. apply (f_equal (map _)). subst eid.
        symmetry. apply filter_all. intros kp. by left.
  - unfold testShimTask_GetExec in Hget. case_decide; [done|].
    destruct (syncMap.Load _ _); by simplify_eq.
Qed.

(** [KillExec] of the test double ignores [all]: an identifier it does not
    know is not found and nothing changes; otherwise the call answers no
    error, the exec that was named has exited and keeps its identifier and
    pid, and the other execs are as before. *)
Theorem testShimTask_KillExec_spec (tst : testShimTask) (eid : string)
    (signal : Z) (all : bool) :
  let '(err, tst') := testShimTask_KillExec tst eid signal all in
  match testShimTask_GetExec tst eid with
  | inr _ => err = Some ErrNotFound ∧ tst' = tst
  | inl e =>
      err = None
      ∧ testShimTask_GetExec tst' eid
        = inl {| tse_id := tse_id e; tse_pid := tse_pid e;
                 tse_state := shimExecStateExited |}
      ∧ (∀ k, k ≠ eid → testShimTask_GetExec tst' k = testShimTask_GetExec tst k)
  end.
Proof.
  unfold testShimTask_KillExec.
  destruct (testShimTask_GetExec tst eid) as [e|err] eqn:Hget; simpl.
  - unfold testShimTask_GetExec in *. destruct (decide (eid = "")) as [->|Hne].
    + simplify_eq/=. split_and!; [done..|]. intros k Hk.
      by rewrite !decide_False by done.
    + destruct (syncMap.Load (tst_execs tst) eid) eqn:Hl; simplify_eq/=.
      rewrite Load_Store, decide_True by done. split_and!; [done..|].
      intros k Hk. case_decide; [done|]. by rewrite Load_Store, decide_False.
  - unfold testShimTask_GetExec in Hget. case_decide; [done|].
    destruct (syncMap.Load _ _); by simplify_eq.
Qed.

(** On the test doubles a kill is followed at once by the exit.  So for a
    task whose execs are test doubles, killing a named exec and then deleting
    it succeeds whatever state the exec was in: the delete returns its pid
    reduced to 32 bits and the exit status 255 and publishes the task-delete
    event, and afterwards the registry is the one before without that
    exec. *)
Theorem kill_then_delete (ht : hcsTask testShimExec) (eid : string)
    (e : testShimExec) (signal : Z) :
  eid ≠ "" →
  syncMap.Load (execs ht) eid = Some e →
  let '(err1, ht1, _) := KillExec ht eid signal false in
  let '(pid, exitStatus, exitedAt, err2, ht2, tr2) := DeleteExec ht1 eid in
  err1 = None ∧ err2 = None
  ∧ pid = tse_pid e mod 2 ^ 32 ∧ exitStatus = 255 ∧ exitedAt = Time_zero
  ∧ tr2 = [Published TaskDeleteEventTopic
             (TaskDelete (id ht) eid (tse_pid e mod 2 ^ 32) 255 Time_zero)]
  ∧ init ht2 = init ht
  ∧ (∀ k, syncMap.Load (execs ht2) k
          = if decide (k = eid) then None else syncMap.Load (execs ht) k).
Proof.
  intros Hne Hload. unfold KillExec. rewrite GetExec_named, Hload by done. simpl.
  rewrite bool_decide_eq_false_2 by done. unfold write_exec.
  rewrite decide_False by done.
  unfold DeleteExec. rewrite GetExec_named by done. simpl.
  rewrite Load_Store, decide_True by done.
  rewrite bool_decide_eq_false_2 by done. simpl.
  rewrite bool_decide_eq_true_2 by done. simpl.
  split_and!; try done. intros k. apply Load_Store_Delete.
Qed.

(** For a task whose execs are test doubles, whose init exec is running and
    whose other execs have all exited: the init exec can be killed, after
    that no exec can be created any more (a precondition violation), and the
    init exec can be deleted, which returns its pid and leaves the registry
    as it is. *)
Theorem init_kill_then_delete (K : constructors testShimExec)
    (ht : hcsTask testShimExec) (signal : Z) :
  State (init ht) = shimExecStateRunning →
  all_exited (execs ht) →
  let '(err1, ht1, tr1) := KillExec ht "" signal false in
  err1 = None ∧ tr1 = [Signalled "" signal]
  ∧ execs ht1 = execs ht
  ∧ State (init ht1) = shimExecStateExited
  ∧ (∀ req spec,
       epr_ExecID req ≠ "" →
       syncMap.Load (execs ht) (epr_ExecID req) = None →
       CreateExec K ht1 req spec = (Some ErrFailedPrecondition, ht1, []))
  ∧ DeleteExec ht1 ""
    = (tse_pid (init ht) mod 2 ^ 32, 255, Time_zero, None, ht1,
       [Published TaskDeleteEventTopic
          (TaskDelete (id ht) "" (tse_pid (init ht) mod 2 ^ 32) 255 Time_zero)]).
Proof.
  intros Hrun Hall. unfold KillExec. rewrite GetExec_init. simpl.
  rewrite check_exited_all_exited by done. simpl.
  split_and!; try done.
  - intros req spec Hne Hnone. unfold CreateExec. simpl. rewrite Hnone.
    rewrite (bool_decide_eq_false_2 (is_Some None)) by (by intros [? ?]).
    by rewrite (bool_decide_eq_false_2 (epr_ExecID req = "")) by done.
  - unfold DeleteExec. rewrite GetExec_init. simpl.
    by rewrite check_exited_all_exited by done.
Qed.

(** ** VPMEM slots *)

Section vpmem_facts.
Import uvm.
Implicit Types (u : UtilityVM) (devs : list (option vpmemInfo)) (hp : string).

Lemma findNext_loop_spec devs i n :
  (i + n ≤ length devs)%nat →
  match findNext_loop devs i n with
  | Ok r =>
      ∃ k, r = Z.of_nat k ∧ (i ≤ k < i + n)%nat ∧ devs !! k = Some None
           ∧ ∀ j, (i ≤ j < k)%nat → ∃ d, devs !! j = Some (Some d)
  | Err e =>
      e = ErrNoAvailableLocation
      ∧ ∀ j, (i ≤ j < i + n)%nat → ∃ d, devs !! j = Some (Some d)
  | IndexPanic => False
  end.
Proof.
  revert i. induction n as [|n IH]; intros i Hlen; simpl.
  - split; [done|]. intros j ?. lia.
  - destruct (devs !! i) as [[d|]|] eqn:Hi.
    + specialize (IH (S i) ltac:(lia)).
      destruct (findNext_loop devs (S i) n) as [r|e|]; [| |done].
      * destruct IH as (k & -> & Hk & Hfree & Hocc). exists k.
        split_and!; [done|lia..|done|]. intros j Hj.
        destruct (decide (j = i)) as [->|]; [by eexists|]. apply Hocc. lia.
      * destruct IH as [-> Hocc]. split; [done|]. intros j Hj.
        destruct (decide (j = i)) as [->|]; [by eexists|]. apply Hocc. lia.
    + exists i. split_and!; [done|lia..|done|]. intros j ?. lia.
    + apply lookup_ge_None in Hi. lia.
Qed.

Lemma findDevice_loop_spec devs hp i n :
  (i + n ≤ length devs)%nat →
  match findDevice_loop devs hp i n with
  | Ok r =>
      ∃ k d, r = Z.of_nat k ∧ (i ≤ k < i + n)%nat
             ∧ devs !! k = Some (Some d) ∧ hostPath d = hp
             ∧ ∀ j dj, (i ≤ j < k)%nat → devs !! j = Some (Some dj) → hostPath dj ≠ hp
  | Err e =>
      e = ErrNotAttached
      ∧ ∀ j dj, (i ≤ j < i + n)%nat → devs !! j = Some (Some dj) → hostPath dj ≠ hp
  | IndexPanic => False
  end.
Proof.
  revert i. induction n as [|n IH]; intros i Hlen; simpl.
  - split; [done|]. intros j ? ?. lia.
  - destruct (devs !! i) as [[d|]|] eqn:Hi.
    + case_bool_decide as Hp.
      * exists i, d. split_and!; [done|lia..|done|done|]. intros j ? ?. lia.
      * specialize (IH (S i) ltac:(lia)).
        destruct (findDevice_loop devs hp (S i) n) as [r|e|]; [| |done].
        -- destruct IH as (k & dk & -> & Hk & Hat & Hpath & Hmiss). exists k, dk.
           split_and!; [done|lia..|done|done|]. intros j dj Hj Hdj.
           destruct (decide (j = i)) as [->|]; [by simplify_eq|].
           apply (Hmiss j); [lia|done].
        -- destruct IH as [-> Hmiss]. split; [done|]. intros j dj Hj Hdj.
           destruct (decide (j = i)) as [->|]; [by simplify_eq|].
           apply (Hmiss j); [lia|done].
    + specialize (IH (S i) ltac:(lia)).
      destruct (findDevice_loop devs hp (S i) n) as [r|e|]; [| |done].
      * destruct IH as (k & dk & -> & Hk & Hat & Hpath & Hmiss). exists k, dk.
        split_and!; [done|lia..|done|done|]. intros j dj Hj Hdj.
        destruct (decide (j = i)) as [->|]; [by simplify_eq|].
        apply (Hmiss j); [lia|done].
      * destruct IH as [-> Hmiss]. split; [done|]. intros j dj Hj Hdj.
        destruct (decide (j = i)) as [->|]; [by simplify_eq|].
        apply (Hmiss j); [lia|done].
    + apply lookup_ge_None in Hi. lia.
Qed.


Lemma findDevice_attached u hp i d :
  table_ok u → attached_at u hp i d → findVPMEMDevice u hp = Ok (Z.of_nat i).
Proof.
  intros [Hlen Huniq] (Hi & Hd & Hp). unfold findVPMEMDevice.
  pose proof (findDevice_loop_spec (vpmemDevices u) hp 0 _ Hlen) as Hs.
  destruct (findDevice_loop _ _ _ _) as [r|e|]; [| |done].
  - destruct Hs as (k & dk & -> & Hk & Hdk & Hpk & _).
    f_equal. f_equal. apply (Huniq k i dk d); [lia|done..|congruence].
  - destruct Hs as [_ Hmiss]. exfalso. by apply (Hmiss i d); [lia|..].
Qed.

Lemma findDevice_missing u hp :
  table_ok u → (∀ i d, ¬ attached_at u hp i d) →
  findVPMEMDevice u hp = Err ErrNotAttached.
Proof.
  intros [Hlen _] Hno. unfold findVPMEMDevice.
  pose proof (findDevice_loop_spec (vpmemDevices u) hp 0 _ Hlen) as Hs.
  destruct (findDevice_loop _ _ _ _) as [r|e|]; [| |done].
  - destruct Hs as (k & dk & -> & Hk & Hdk & Hpk & _).
    exfalso. apply (Hno k dk). split_and!; [lia|done..].
  - by destruct Hs as [-> _].
Qed.

Lemma table_ok_set u i new :
  table_ok u →
  (∀ d, new = Some d →
     ∀ j dj, (j < Z.to_nat (vpmemMaxCount u))%nat → j ≠ i →
       vpmemDevices u !! j = Some (Some dj) → hostPath dj ≠ hostPath d) →
  table_ok (set_device u (Z.of_nat i) new).
Proof.
  intros [Hlen Huniq] Hnew. unfold table_ok, set_device. simpl.
  rewrite Nat2Z.id, length_insert. split; [done|].
  intros a b da db Ha Hb Hda Hdb Hpath.
  destruct (decide (a = i)) as [->|Hai], (decide (b = i)) as [->|Hbi]; [done|..].
  - rewrite list_lookup_insert_ne in Hdb by done.
    apply list_lookup_insert_Some in Hda as [(_ & Hda & _)|[? _]]; [|done].
    simplify_eq. exfalso. by apply (Hnew da eq_refl b db).
  - rewrite list_lookup_insert_ne in Hda by done.
    apply list_lookup_insert_Some in Hdb as [(_ & Hdb & _)|[? _]]; [|done].
    simplify_eq. exfalso. by apply (Hnew db eq_refl a da).
  - rewrite list_lookup_insert_ne in Hda, Hdb by done. by apply (Huniq a b da db).
Qed.

Lemma findVPMEMDevice_spec u hp :
  table_ok u →
  match findVPMEMDevice u hp with
  | Ok r => (0 ≤ r)%Z ∧ ∃ d, attached_at u hp (Z.to_nat r) d
  | Err e => e = ErrNotAttached ∧ ∀ i d, ¬ attached_at u hp i d
  | IndexPanic => False
  end.
Proof.
  intros [Hlen _]. unfold findVPMEMDevice.
  pose proof (findDevice_loop_spec (vpmemDevices u) hp 0 _ Hlen) as Hs.
  destruct (findDevice_loop _ _ _ _) as [r|e|]; [| |done].
  - destruct Hs as (k & dk & -> & Hk & Hdk & Hpk & _). rewrite Nat2Z.id.
    split; [lia|]. exists dk. split_and!; [lia|done..].
  - destruct Hs as [-> Hmiss]. split; [done|].
    intros i d (Hi & Hd & Hp). by apply (Hmiss i d); [lia|..].
Qed.

Lemma AddVPMEM_shared_eq (H : host) u hp i d :
  table_ok u →
  operatingSystem u = "linux" →
  attached_at u hp i d →
  AddVPMEM H u hp
  = (Ok (uvmPath d),
     set_device u (Z.of_nat i)
       (Some {| hostPath := hostPath d; uvmPath := uvmPath d;
                refCount := uint32 (refCount d + 1) |}),
     []).
Proof.
  intros Hok Hlinux Hat. unfold AddVPMEM.
  rewrite bool_decide_eq_false_2 by (by intros ?).
  rewrite (findDevice_attached u hp i d Hok Hat). rewrite Nat2Z.id.
  destruct Hat as (_ & -> & _). done.
Qed.

(** [findNextVPMEM] answers the lowest free slot below the maximum, and
    no-available-location exactly when every slot below the maximum is
    taken. *)
Theorem findNextVPMEM_least u hp :
  table_ok u →
  match findNextVPMEM u hp with
  | Ok r =>
      (0 ≤ r < vpmemMaxCount u)%Z
      ∧ vpmemDevices u !! Z.to_nat r = Some None
      ∧ ∀ j, (j < Z.to_nat r)%nat → ∃ d, vpmemDevices u !! j = Some (Some d)
  | Err e =>
      e = ErrNoAvailableLocation
      ∧ ∀ j, (j < Z.to_nat (vpmemMaxCount u))%nat →
             ∃ d, vpmemDevices u !! j = Some (Some d)
  | IndexPanic => False
  end.
Proof.
  intros [Hlen _]. unfold findNextVPMEM.
  pose proof (findNext_loop_spec (vpmemDevices u) 0 _ Hlen) as Hs.
  destruct (findNext_loop _ _ _) as [r|e|]; [| |done].
  - destruct Hs as (k & -> & Hk & Hfree & Hocc). rewrite Nat2Z.id.
    split_and!; [lia..|done|]. intros j Hj. apply Hocc. lia.
  - destruct Hs as [-> Hocc]. split; [done|]. intros j Hj. apply Hocc. lia.
Qed.

(** [findVPMEMDevice] answers a slot exactly when the host path is attached
    at that slot below the maximum, and not-attached exactly when it is
    attached at none. *)
Theorem findVPMEMDevice_iff u hp :
  table_ok u →
  (∀ i, findVPMEMDevice u hp = Ok (Z.of_nat i) ↔ ∃ d, attached_at u hp i d)
  ∧ (findVPMEMDevice u hp = Err ErrNotAttached ↔ ∀ i d, ¬ attached_at u hp i d)
  ∧ findVPMEMDevice u hp ≠ IndexPanic.
Proof.
  intros Hok. pose proof (findVPMEMDevice_spec u hp Hok) as Hs. split_and!.
  - intros i. split.
    + intros Hf. rewrite Hf in Hs. destruct Hs as (_ & d & Hat).
      rewrite Nat2Z.id in Hat. by exists d.
    + intros [d Hat]. by apply (findDevice_attached u hp i d).
  - split.
    + intros Hf. rewrite Hf in Hs. by destruct Hs.
    + by apply findDevice_missing.
  - intros Hf. by rewrite Hf in Hs.
Qed.

(** The first [AddVPMEM] of a host path: when it succeeds it has taken the
    lowest free slot, asked the host to add the device there and the guest to
    mount it at the path numbered by the slot, which it returns; the table
    holds the host path at that slot with a count of one, every other slot is
    as before, and [findVPMEMDevice] now finds the host path there. *)
Theorem AddVPMEM_fresh (H : host) u hp p u' tr :
  table_ok u →
  (∀ i d, ¬ attached_at u hp i d) →
  AddVPMEM H u hp = (Ok p, u', tr) →
  ∃ i, (i < Z.to_nat (vpmemMaxCount u))%nat
       ∧ vpmemDevices u !! i = Some None
       ∧ (∀ j, (j < i)%nat → ∃ d, vpmemDevices u !! j = Some (Some d))
       ∧ p = lcowVPMEMLayerFmt (Z.of_nat i)
       ∧ vpmemDevices u'
         = <[i := Some {| hostPath := hp; uvmPath := p; refCount := 1 |}]>
             (vpmemDevices u)
       ∧ tr = [HostAdd (Z.of_nat i) hp;
               GuestReq {| RequestType := Add; DeviceNumber := Z.of_nat i;
                           MountPath := p |}]
       ∧ findVPMEMDevice u' hp = Ok (Z.of_nat i)
       ∧ table_ok u'.
Proof.
  intros Hok Hno. unfold AddVPMEM. case_bool_decide; [done|].
  rewrite (findDevice_missing u hp Hok Hno).
  destruct (os_Stat H hp); [|done]. case_bool_decide; [done|].
  unfold findNextVPMEM.
  pose proof (findNext_loop_spec (vpmemDevices u) 0 _ (proj1 Hok)) as Hs.
  destruct (findNext_loop _ _ _) as [r|e|]; [|done..].
  destruct Hs as (k & -> & Hk & Hfree & Hocc).
  destruct (negb _ || negb _); [done|].
  destruct (AddVPMemDevice H _ hp); [done|].
  destruct (GuestRequest H _); [done|]. intros [= <- <- <-].
  assert (table_ok
            (set_device u (Z.of_nat k)
               (Some {| hostPath := hp; uvmPath := lcowVPMEMLayerFmt (Z.of_nat k);
                        refCount := 1 |}))) as Hok'.
  { apply table_ok_set; [done|]. intros d [= <-] j dj Hj Hne Hdj Hp. simpl in Hp.
    by apply (Hno j dj). }
  exists k. split_and!; [lia|done| |done| |done| |done].
  - intros j Hj. apply Hocc. lia.
  - simpl. by rewrite Nat2Z.id.
  - apply (findDevice_attached _ _ k
             {| hostPath := hp; uvmPath := lcowVPMEMLayerFmt (Z.of_nat k);
                refCount := 1 |} Hok').
    split_and!; [simpl; lia| |done].
    simpl. rewrite Nat2Z.id. apply list_lookup_insert_eq.
    apply lookup_lt_Some in Hfree. lia.
Qed.

(** Failures change nothing in the table: whenever [AddVPMEM] or
    [RemoveVPMEM] does not succeed the table is as before.  On anything but
    Linux both answer not-supported without calling anyone, and
    [RemoveVPMEM] of a host path that is not attached answers not-attached
    without calling anyone. *)
Theorem VPMEM_failure_keeps_table (H : host) u hp :
  ((∀ p, (AddVPMEM H u hp).1.1 ≠ Ok p) → (AddVPMEM H u hp).1.2 = u)
  ∧ ((RemoveVPMEM H u hp).1.1 ≠ Ok () → (RemoveVPMEM H u hp).1.2 = u)
  ∧ (operatingSystem u ≠ "linux" →
     AddVPMEM H u hp = (Err errNotSupported, u, [])
     ∧ RemoveVPMEM H u hp = (Err errNotSupported, u, []))
  ∧ (table_ok u → operatingSystem u = "linux" →
     (∀ i d, ¬ attached_at u hp i d) →
     RemoveVPMEM H u hp = (Err ErrNotAttached, u, [])).
Proof.
  split_and!.
  - unfold AddVPMEM. case_bool_decide; [done|].
    destruct (findVPMEMDevice u hp) as [r|e|]; [| |done].
    + destruct (vpmemDevices u !! Z.to_nat r) as [[dv|]|]; [|done..].
      simpl. intros Hf. by destruct (Hf (uvmPath dv)).
    + destruct (os_Stat H hp); [|done]. case_bool_decide; [done|].
      destruct (findNextVPMEM u hp); [|done..].
      destruct (negb _ || negb _); [done|].
      destruct (AddVPMemDevice H _ hp); [done|].
      destruct (GuestRequest H _); [done|]. simpl. intros Hf.
      by destruct (Hf (lcowVPMEMLayerFmt a)).
  - unfold RemoveVPMEM. case_bool_decide; [done|].
    destruct (findVPMEMDevice u hp) as [r|e|]; [|done..].
    destruct (vpmemDevices u !! Z.to_nat r) as [[dv|]|]; [|done..].
    case_bool_decide; [|done].
    destruct (negb _ || negb _); [done|].
    destruct (GuestRequest H _); [done|].
    by destruct (RemoveVPMemDevice H _ hp).
  - intros Hos. unfold AddVPMEM, RemoveVPMEM.
    by rewrite bool_decide_eq_true_2.
  - intros Hok Hlinux Hno. unfold RemoveVPMEM.
    rewrite bool_decide_eq_false_2 by (by intros ?).
    by rewrite (findDevice_missing u hp Hok Hno).
Qed.

Lemma set_device_back u i old new :
  vpmemDevices u !! i = Some old →
  set_device (set_device u (Z.of_nat i) new) (Z.of_nat i) old = u.
Proof.
  intros Hold. destruct u as [os mx sz devs]. unfold set_device. simpl in *.
  f_equal. rewrite Nat2Z.id, list_insert_insert_eq. by apply list_insert_id.
Qed.

(** Attach and detach: after the first [AddVPMEM] of a host path has
    succeeded, a [RemoveVPMEM] of it that the guest and the host accept asks
    the guest to unmount and the host to remove the device of that slot, and
    the table is again what it was before the two calls. *)
Theorem Add_then_Remove (H H' : host) u hp p u1 tr1 :
  table_ok u →
  (∀ i d, ¬ attached_at u hp i d) →
  AddVPMEM H u hp = (Ok p, u1, tr1) →
  VPMemManager H' = true →
  Supported H' Remove = true →
  (∀ req, GuestRequest H' req = None) →
  (∀ n path, RemoveVPMemDevice H' n path = None) →
  ∃ n, tr1 = [HostAdd n hp;
              GuestReq {| RequestType := Add; DeviceNumber := n; MountPath := p |}]
       ∧ RemoveVPMEM H' u1 hp
         = (Ok (), u,
            [GuestReq {| RequestType := Remove; DeviceNumber := n; MountPath := p |};
             HostRemove n hp]).
Proof.
  intros Hok Hno Hadd Hm Hsup Hg Hr.
  assert (operatingSystem u = "linux") as Hlinux.
  { revert Hadd. unfold AddVPMEM. case_bool_decide as Hos; [done|].
    by intros _. }
  revert Hadd. unfold AddVPMEM. rewrite bool_decide_eq_false_2 by (by intros ?).
  rewrite (findDevice_missing u hp Hok Hno).
  destruct (os_Stat H hp); [|done]. case_bool_decide; [done|].
  unfold findNextVPMEM.
  pose proof (findNext_loop_spec (vpmemDevices u) 0 _ (proj1 Hok)) as Hs.
  destruct (findNext_loop _ _ _) as [r|e|]; [|done..].
  destruct Hs as (k & -> & Hk & Hfree & Hocc).
  destruct (negb _ || negb _); [done|].
  destruct (AddVPMemDevice H _ hp); [done|].
  destruct (GuestRequest H _); [done|]. intros [= <- <- <-].
  exists (Z.of_nat k). split; [done|].
  set (dv := {| hostPath := hp; uvmPath := lcowVPMEMLayerFmt (Z.of_nat k);
                refCount := 1 |}).
  assert (table_ok (set_device u (Z.of_nat k) (Some dv))) as Hok'.
  { apply table_ok_set; [done|]. intros d [= <-] j dj Hj Hne Hdj Hp. simpl in Hp.
    by apply (Hno j dj). }
  assert (vpmemDevices (set_device u (Z.of_nat k) (Some dv)) !! k = Some (Some dv))
    as Hat.
  { simpl. rewrite Nat2Z.id. apply list_lookup_insert_eq.
    apply lookup_lt_Some in Hfree. lia. }
  unfold RemoveVPMEM. simpl operatingSystem.
  rewrite bool_decide_eq_false_2 by (by intros ?).
  rewrite (findDevice_attached _ hp k dv Hok') by (split_and!; [simpl; lia|done..]).
  rewrite Nat2Z.id, Hat. simpl refCount. rewrite bool_decide_eq_true_2 by done.
  rewrite Hm, Hsup. simpl. rewrite Hg, Hr. by rewrite set_device_back.
Qed.

(** Share and release: for a host path that is attached with a count that
    is not at the end of its range, [AddVPMEM] calls neither the host nor
    the guest, returns the path recorded for it and counts one more use; a
    [RemoveVPMEM] after it calls neither of them either and leaves the table
    exactly as it was before the two calls. *)
Theorem share_then_release (H H' : host) u hp i d :
  table_ok u →
  operatingSystem u = "linux" →
  attached_at u hp i d →
  (1 ≤ refCount d < 2 ^ 32 - 1)%Z →
  let '(r1, u1, tr1) := AddVPMEM H u hp in
  let '(r2, u2, tr2) := RemoveVPMEM H' u1 hp in
  r1 = Ok (uvmPath d) ∧ tr1 = []
  ∧ vpmemDevices u1
    = <[i := Some {| hostPath := hostPath d; uvmPath := uvmPath d;
                     refCount := refCount d + 1 |}]> (vpmemDevices u)
  ∧ r2 = Ok () ∧ tr2 = [] ∧ u2 = u.
Proof.
  intros Hok Hlinux Hat Hcount.
  rewrite (AddVPMEM_shared_eq H u hp i d Hok Hlinux Hat).
  set (d1 := {| hostPath := hostPath d; uvmPath := uvmPath d;
                refCount := uint32 (refCount d + 1) |}).
  destruct Hat as (Hi & Hd & Hp).
  assert (uint32 (refCount d + 1) = refCount d + 1)%Z as Hinc.
  { unfold uint32. apply Z.mod_small. lia. }
  assert (table_ok (set_device u (Z.of_nat i) (Some d1))) as Hok'.
  { apply table_ok_set; [done|]. intros ? [= <-] j dj Hj Hne Hdj Hpj. simpl in Hpj.
    destruct Hok as [_ Huniq]. apply Hne. by apply (Huniq j i dj d). }
  assert (vpmemDevices (set_device u (Z.of_nat i) (Some d1)) !! i = Some (Some d1))
    as Hat1.
  { simpl. rewrite Nat2Z.id. apply list_lookup_insert_eq.
    apply lookup_lt_Some in Hd. lia. }
  unfold RemoveVPMEM. simpl operatingSystem.
  rewrite bool_decide_eq_false_2 by (by intros ?).
  rewrite (findDevice_attached _ hp i d1 Hok') by (split_and!; [simpl; lia|done..]).
  rewrite Nat2Z.id, Hat1. simpl refCount. rewrite Hinc.
  rewrite bool_decide_eq_false_2 by lia.
  split_and!; try done.
  { simpl. unfold d1. by rewrite Nat2Z.id, Hinc. }
  replace (refCount d + 1 - 1)%Z with (refCount d) by lia.
  assert (uint32 (refCount d) = refCount d) as ->.
  { unfold uint32. apply Z.mod_small. lia. }
  simpl. replace {| hostPath := hostPath d; uvmPath := uvmPath d;
                    refCount := refCount d |} with d by (by destruct d).
  by apply set_device_back.
Qed.

(** The table stays well formed through [AddVPMEM] and [RemoveVPMEM],
    whatever the host and the guest answer: it keeps a slot for every device
    number below the maximum and no host path is attached twice. *)
Theorem table_ok_preserved (H : host) u hp :
  table_ok u →
  table_ok (AddVPMEM H u hp).1.2 ∧ table_ok (RemoveVPMEM H u hp).1.2.
Proof.
  intros Hok. pose proof Hok as [Hlen Huniq]. split.
  - unfold AddVPMEM. case_bool_decide; [done|].
    pose proof (findVPMEMDevice_spec u hp Hok) as Hf.
    destruct (findVPMEMDevice u hp) as [r|e|]; [| |done].
    + destruct Hf as (Hr & d & Hi & Hd & Hp). rewrite Hd. simpl.
      rewrite <- (Z2Nat.id r) by done. apply table_ok_set; [done|].
      intros ? [= <-] j dj Hj Hne Hdj Hpj. simpl in Hpj.
      apply Hne. by apply (Huniq j (Z.to_nat r) dj d).
    + destruct Hf as [-> Hno].
      destruct (os_Stat H hp); [|done]. case_bool_decide; [done|].
      unfold findNextVPMEM.
      pose proof (findNext_loop_spec (vpmemDevices u) 0 _ Hlen) as Hs.
      destruct (findNext_loop _ _ _) as [r|e|]; [|done..].
      destruct Hs as (k & -> & Hk & Hfree & Hocc).
      destruct (negb _ || negb _); [done|].
      destruct (AddVPMemDevice H _ hp); [done|].
      destruct (GuestRequest H _); [done|]. simpl.
      apply table_ok_set; [done|]. intros ? [= <-] j dj Hj Hne Hdj Hpj.
      simpl in Hpj. by apply (Hno j dj).
  - unfold RemoveVPMEM. case_bool_decide; [done|].
    pose proof (findVPMEMDevice_spec u hp Hok) as Hf.
    destruct (findVPMEMDevice u hp) as [r|e|]; [|done..].
    destruct Hf as (Hr & d & Hi & Hd & Hp). rewrite Hd.
    case_bool_decide.
    + destruct (negb _ || negb _); [done|].
      destruct (GuestRequest H _); [done|].
      destruct (RemoveVPMemDevice H _ hp); [done|]. simpl.
      rewrite <- (Z2Nat.id r) by done. by apply table_ok_set.
    + simpl. rewrite <- (Z2Nat.id r) by done. apply table_ok_set; [done|].
      intros ? [= <-] j dj Hj Hne Hdj Hpj. simpl in Hpj.
      apply Hne. by apply (Huniq j (Z.to_nat r) dj d).
Qed.

End vpmem_facts.


(** ** Mounted cim images *)

Section cimfs_facts.
Import cimfs.
Implicit Types (W : winapi) (m : mounts) (p : string).

Lemma set_refCount_same (ci : cimInfo) : set_refCount ci (refCount ci) = ci.
Proof. by destruct ci. Qed.

(** A successful mount can be looked up: [GetCimMountPath] then answers the
    volume path the mount returned.  A mount of a path that is mounted
    already calls nobody, whatever flags it is given, and answers the volume
    path of the first mount. *)
Theorem Mount_then_lookup W m p flags v m' tr :
  MountWithFlags W m p flags = (Ok v, m', tr) →
  GetCimMountPath m' p = inl v
  ∧ (∀ W2 flags2, ∃ m'', MountWithFlags W2 m' p flags2 = (Ok v, m'', []))
  ∧ (∀ ci, m !! p = Some ci → v = volumePath (cimID ci) ∧ tr = [])
  ∧ (m !! p = None →
     ∃ g, guid_NewV4 W = inl g ∧ v = volumePath g
          ∧ tr = [MountImage (filepath_Dir W p) (filepath_Base W p) flags g]
          ∧ m' !! p = Some {| path := p; cimID := g; refCount := 1 |}).
Proof.
  unfold MountWithFlags, addRef.
  destruct (m !! p) as [ci|] eqn:Hm.
  - intros [= <- <- <-]. unfold GetCimMountPath. rewrite lookup_insert_eq. simpl.
    split_and!; [done| |by intros ? [= <-]|done].
    intros W2 flags2. rewrite ?lookup_insert_eq. simpl. by eexists.
  - destruct (guid_NewV4 W) as [g|err]; [|done].
    destruct (CimMountImage W _ _ _ _); [done|].
    rewrite lookup_insert_eq. simpl. intros [= <- <- <-].
    unfold GetCimMountPath. rewrite lookup_insert_eq. simpl.
    split_and!; [done| |done|].
    + intros W2 flags2. rewrite ?lookup_insert_eq. simpl. by eexists.
    + intros _. exists g. rewrite ?lookup_insert_eq. by split_and!.
Qed.

(** Mount and unmount: after a path that was not mounted has been mounted,
    an [Unmount] whose dismount succeeds dismounts the volume of that mount
    and the map of mounts is again what it was. *)
Theorem Mount_then_Unmount W W' m p flags v m1 tr1 :
  m !! p = None →
  MountWithFlags W m p flags = (Ok v, m1, tr1) →
  (∀ g, CimDismountImage W' g = None) →
  ∃ g, v = volumePath g ∧ Unmount W' m1 p = (None, m, [DismountImage g]).
Proof.
  intros Hm. unfold MountWithFlags, addRef. rewrite Hm.
  destruct (guid_NewV4 W) as [g|err]; [|done].
  destruct (CimMountImage W _ _ _ _); [done|].
  rewrite lookup_insert_eq. simpl. intros [= <- <- <-] Hd.
  exists g. split; [done|]. unfold Unmount. rewrite lookup_insert_eq. simpl.
  rewrite Hd. rewrite insert_insert_eq, delete_insert_eq.
  by rewrite delete_id.
Qed.

(** Share and release: for a path that is mounted with a count that is not
    at the end of its range, a mount followed by an unmount calls nobody and
    leaves the map of mounts exactly as it was; in between the count is one
    higher. *)
Theorem Mount_Unmount_shared W W' m p flags ci :
  m !! p = Some ci →
  (1 ≤ refCount ci < 2 ^ 32 - 1)%Z →
  let '(r1, m1, tr1) := MountWithFlags W m p flags in
  let '(r2, m2, tr2) := Unmount W' m1 p in
  r1 = Ok (volumePath (cimID ci)) ∧ tr1 = []
  ∧ m1 !! p = Some (set_refCount ci (refCount ci + 1))
  ∧ r2 = None ∧ tr2 = [] ∧ m2 = m.
Proof.
  intros Hm Hc. unfold MountWithFlags, addRef. rewrite Hm.
  assert (uint32 (refCount ci + 1) = refCount ci + 1)%Z as ->.
  { unfold uint32. apply Z.mod_small. lia. }
  unfold Unmount. rewrite lookup_insert_eq. simpl.
  rewrite bool_decide_eq_false_2 by lia.
  replace (refCount ci + 1 - 1)%Z with (refCount ci) by lia.
  assert (uint32 (refCount ci) = refCount ci) as ->.
  { unfold uint32. apply Z.mod_small. lia. }
  split_and!; try done.
  rewrite insert_insert_eq. unfold set_refCount at 1. simpl.
  fold (set_refCount ci (refCount ci)). rewrite set_refCount_same.
  by apply insert_id.
Qed.

(** Failures and other paths: a mount or unmount that answers an error
    leaves the map of mounts as it was; an unmount or a lookup of a path
    that is not mounted is an error and calls nobody; and a mount or unmount
    of one path never changes what is recorded for another path. *)
Theorem cim_failure_and_frame W m p flags :
  ((∀ v, (MountWithFlags W m p flags).1.1 ≠ Ok v) →
     (MountWithFlags W m p flags).1.2 = m)
  ∧ (is_Some (Unmount W m p).1.1 → (Unmount W m p).1.2 = m)
  ∧ (m !! p = None →
     Unmount W m p = (Some (Errorf "cim not mounted"), m, [])
     ∧ GetCimMountPath m p = inr (Errorf ("cim " +:+ p +:+ " is not mounted")))
  ∧ (∀ q, q ≠ p →
     (MountWithFlags W m p flags).1.2 !! q = m !! q
     ∧ (Unmount W m p).1.2 !! q = m !! q).
Proof.
  split_and!.
  - unfold MountWithFlags, addRef. destruct (m !! p) as [ci|] eqn:Hm.
    + simpl. intros Hf. by destruct (Hf (volumePath (cimID ci))).
    + destruct (guid_NewV4 W) as [g|err]; [|done].
      destruct (CimMountImage W _ _ _ _); [done|].
      rewrite lookup_insert_eq. simpl. intros Hf. by destruct (Hf (volumePath g)).
  - unfold Unmount. destruct (m !! p) as [ci|]; [|done].
    case_bool_decide; [|by intros [? [=]]].
    destruct (CimDismountImage W _); [done|]. by intros [? [=]].
  - intros Hm. unfold Unmount, GetCimMountPath. by rewrite Hm.
  - intros q Hq. split.
    + unfold MountWithFlags, addRef. destruct (m !! p) as [ci|] eqn:Hm; simpl.
      * by rewrite lookup_insert_ne.
      * destruct (guid_NewV4 W) as [g|err]; [|done].
        destruct (CimMountImage W _ _ _ _); [done|].
        rewrite lookup_insert_eq. simpl. by rewrite !lookup_insert_ne.
    + unfold Unmount. destruct (m !! p) as [ci|] eqn:Hm; [|done].
      case_bool_decide; simpl; [|by rewrite lookup_insert_ne].
      destruct (CimDismountImage W _); [done|]. simpl. by rewrite lookup_delete_ne.
Qed.

End cimfs_facts.

(** ** The statements above at concrete inputs *)

Lemma CreateExec_registers_witness :
  (CreateExec testConstructors (testTask shimExecStateRunning oneExited)
     (execRequest "e2") (mkProcess [])).2
  = [Published TaskExecAddedEventTopic (TaskExecAdded "t1" "e2")].
Proof.
  destruct (CreateExec_registers testConstructors
              (testTask shimExecStateRunning oneExited)
              (execRequest "e2") (mkProcess []))
    as (_ & _ & _ & _ & _ & Htr); [reflexivity|].
  exact Htr.
Defined.

Lemma CreateExec_twice_witness :
  let ht' :=
    (CreateExec testConstructors (testTask shimExecStateRunning oneExited)
       (execRequest "e2") (mkProcess [])).1.2 in
  CreateExec testConstructors ht'
    (mkExecProcessRequest "e2" "in" "out" "err" true) (mkProcess ["sh"])
  = (Some ErrAlreadyExists, ht', []).
Proof.
  apply (CreateExec_twice testConstructors
           (testTask shimExecStateRunning oneExited)
           (execRequest "e2") (mkProcess [])
           (mkExecProcessRequest "e2" "in" "out" "err" true) (mkProcess ["sh"]));
    reflexivity.
Defined.

Lemma KillExec_named_witness :
  (KillExec (testTask shimExecStateRunning twoRunning) "e2" 15 false).2
  = [Signalled "e2" 15].
Proof.
  pose proof (KillExec_named (testTask shimExecStateRunning twoRunning) "e2"
                (testExec "e2" 102 shimExecStateRunning) 15) as Hk.
  destruct (KillExec _ _ _ _) as [[err ht'] tr].
  destruct Hk as (_ & Htr & _); [discriminate|reflexivity|]. exact Htr.
Defined.

Lemma DeleteExec_again_witness :
  let ht' := (DeleteExec (testTask shimExecStateRunning oneExited) "e1").1.2 in
  DeleteExec ht' "e1" = (0, 0, Time_zero, Some ErrNotFound, ht', []).
Proof.
  destruct (DeleteExec_again (testTask shimExecStateRunning oneExited) "e1")
    as [Hnamed _]; [reflexivity|].
  destruct Hnamed as [_ Hd]; [discriminate|]. exact Hd.
Defined.

Lemma registry_ok_preserved_witness :
  registry_ok
    (execs (CreateExec testConstructors (testTask shimExecStateRunning oneExited)
              (execRequest "e2") (mkProcess [])).1.2).
Proof.
  assert (registry_ok (execs (testTask shimExecStateRunning oneExited))) as Hok.
  { split.
    - apply NoDup_singleton.
    - intros Hin. apply list_elem_of_singleton in Hin. discriminate Hin. }
  destruct (registry_ok_preserved testConstructors _ Hok) as (Hc & _ & _).
  apply Hc.
Defined.

Lemma standalone_without_boundary_witness :
  let '(out, h', tr) :=
    newHcsStandaloneTask processIsolated testConstructors wcowHeap
      testRequest wcowSpec in
  h' = wcowHeap ∧ Forall (λ x, is_boundary_effect x = false) tr.
Proof.
  pose proof (standalone_without_boundary processIsolated testConstructors
                wcowHeap testRequest wcowSpec "") as Hs.
  destruct (newHcsStandaloneTask _ _ _ _ _) as [[out h'] tr].
  destruct Hs as (Hh & Htr & _); [reflexivity|right; reflexivity|]. by split.
Defined.

Lemma standalone_rollback_witness :
  let '(out, _, tr) :=
    newHcsStandaloneTask failingContainer testConstructors ∅ testRequest lcowSpec in
  out = Returned None (Some (ErrExternal "create failed"))
  ∧ last tr = Some (BoundaryClose testVM).
Proof.
  pose proof (standalone_rollback failingContainer testConstructors ∅
                testRequest lcowSpec testVM) as Hs.
  destruct (newHcsStandaloneTask _ _ _ _ _) as [[out h'] tr] eqn:Hrun.
  vm_compute in Hrun. injection Hrun as <- <- <-.
  destruct Hs as [_ Hlast].
  - apply list_elem_of_further, list_elem_of_here.
  - split; [reflexivity|exact Hlast].
Defined.

Lemma created_task_teardown_witness :
  ∃ ht,
    (newHcsStandaloneTask (testProvisioner false None) testConstructors ∅
       testRequest lcowSpec).1.1 = Returned (Some ht) None
    ∧ stages (waitForExit brokenEngine ht)
      = [ContainerShutdown; ResourcesReleased (cr ht) (host ht) true;
         ContainerClose; BoundaryClose testVM].
Proof.
  eexists. split; [vm_compute; reflexivity|].
  match goal with
  | |- stages (waitForExit _ ?ht) = _ =>
      destruct (created_task_teardown (testProvisioner false None)
                  testConstructors ∅ testRequest lcowSpec ht brokenEngine)
        as (_ & _ & _ & Hst); [reflexivity|]
  end.
  exact Hst.
Defined.

Lemma standalone_no_layers_panics_witness :
  (newHcsStandaloneTask (testProvisioner true None) testConstructors wcowHeap
     testRequest noLayersSpec).1.1 = Panicked.
Proof.
  pose proof (standalone_no_layers_panics (testProvisioner true None)
                testConstructors wcowHeap testRequest noLayersSpec ""
                {| wcow_ID := "t1@vm";
                   wcow_Owner := "containerd-shim-runhcs-v1.exe";
                   wcow_LayerFolders := {| s_ptr := 1%positive; s_len := 0 |} |}
                {| LayerFolders := {| s_ptr := 1%positive; s_len := 0 |};
                   Network := None |}) as Hs.
  destruct (newHcsStandaloneTask _ _ _ _ _) as [[out h'] tr].
  destruct Hs as (Hout & _).
  - reflexivity.
  - vm_compute. discriminate.
  - reflexivity.
  - reflexivity.
  - reflexivity.
  - reflexivity.
  - exact Hout.
Defined.

Lemma kill_then_delete_witness :
  let '(err1, ht1, _) :=
    KillExec (testTask shimExecStateRunning twoRunning) "e2" 9 false in
  let '(pid, exitStatus, _, err2, _, _) := DeleteExec ht1 "e2" in
  err1 = None ∧ err2 = None ∧ pid = 102 ∧ exitStatus = 255.
Proof.
  pose proof (kill_then_delete (testTask shimExecStateRunning twoRunning) "e2"
                (testExec "e2" 102 shimExecStateRunning) 9) as Hk.
  destruct (KillExec _ _ _ _) as [[err1 ht1] tr1].
  destruct (DeleteExec ht1 "e2") as [[[[[pid st] at_] err2] ht2] tr2].
  destruct Hk as (H1 & H2 & H3 & H4 & _); [discriminate|reflexivity|].
  split_and!; [exact H1|exact H2|exact H3|exact H4].
Defined.

Lemma init_kill_then_delete_witness :
  let '(err1, ht1, _) :=
    KillExec (testTask shimExecStateRunning oneExited) "" 9 false in
  err1 = None ∧ State (init ht1) = shimExecStateExited.
Proof.
  pose proof (init_kill_then_delete testConstructors
                (testTask shimExecStateRunning oneExited) 9) as Hk.
  destruct (KillExec _ _ _ _) as [[err1 ht1] tr1].
  destruct Hk as (H1 & _ & _ & H4 & _).
  - reflexivity.
  - repeat constructor.
  - by split.
Defined.

Lemma testLinuxVM_ok : uvm.table_ok testLinuxVM.
Proof.
  split; [simpl; lia|]. intros i j di dj Hi Hj Hdi Hdj _.
  destruct i as [|[|[|i]]], j as [|[|[|j]]]; simpl in *; try discriminate; try lia;
    reflexivity.
Defined.

Lemma findNextVPMEM_least_witness :
  uvm.findNextVPMEM testLinuxVM "C:\layers\b.vhd" = uvm.Ok 0
  ∧ uvm.vpmemDevices testLinuxVM !! Z.to_nat 0 = Some None.
Proof.
  pose proof (findNextVPMEM_least testLinuxVM "C:\layers\b.vhd" testLinuxVM_ok) as Hs.
  assert (uvm.findNextVPMEM testLinuxVM "C:\layers\b.vhd" = uvm.Ok 0) as Hrun
    by reflexivity.
  rewrite Hrun in Hs. destruct Hs as (_ & Hfree & _). by split.
Defined.

Lemma findVPMEMDevice_iff_witness :
  uvm.findVPMEMDevice testLinuxVM "C:\layers\a.vhd" = uvm.Ok 1.
Proof.
  destruct (findVPMEMDevice_iff testLinuxVM "C:\layers\a.vhd" testLinuxVM_ok)
    as (Hiff & _).
  apply (Hiff 1%nat). exists layerA. split_and!; [simpl; lia|reflexivity..].
Defined.

Lemma testLinuxVM_fresh i d : ¬ uvm.attached_at testLinuxVM "C:\layers\b.vhd" i d.
Proof.
  intros (Hi & Hd & Hp).
  destruct i as [|[|[|i]]]; simpl in *; try discriminate; try lia.
  injection Hd as <-. discriminate Hp.
Defined.

Lemma AddVPMEM_fresh_witness :
  ∃ i, uvm.findVPMEMDevice
         (uvm.AddVPMEM testHost testLinuxVM "C:\layers\b.vhd").1.2 "C:\layers\b.vhd"
       = uvm.Ok (Z.of_nat i).
Proof.
  destruct (AddVPMEM_fresh testHost testLinuxVM "C:\layers\b.vhd" "/run/layers/p0"
              (uvm.AddVPMEM testHost testLinuxVM "C:\layers\b.vhd").1.2
              (uvm.AddVPMEM testHost testLinuxVM "C:\layers\b.vhd").2
              testLinuxVM_ok testLinuxVM_fresh)
    as (i & _ & _ & _ & _ & _ & _ & Hfind & _).
  - vm_compute. reflexivity.
  - by exists i.
Defined.

Lemma VPMEM_failure_keeps_table_witness :
  uvm.AddVPMEM testHost testWindowsVM "C:\layers\a.vhd"
  = (uvm.Err uvm.errNotSupported, testWindowsVM, []).
Proof.
  destruct (VPMEM_failure_keeps_table testHost testWindowsVM "C:\layers\a.vhd")
    as (_ & _ & Hos & _).
  destruct Hos as [Hadd _]; [discriminate|]. exact Hadd.
Defined.

Lemma Add_then_Remove_witness :
  ∃ tr2, uvm.RemoveVPMEM testHost
           (uvm.AddVPMEM testHost testLinuxVM "C:\layers\b.vhd").1.2 "C:\layers\b.vhd"
         = (uvm.Ok (), testLinuxVM, tr2).
Proof.
  destruct (Add_then_Remove testHost testHost testLinuxVM "C:\layers\b.vhd"
              "/run/layers/p0"
              (uvm.AddVPMEM testHost testLinuxVM "C:\layers\b.vhd").1.2
              (uvm.AddVPMEM testHost testLinuxVM "C:\layers\b.vhd").2
              testLinuxVM_ok testLinuxVM_fresh)
    as (n & _ & Hrem).
  - vm_compute. reflexivity.
  - reflexivity.
  - reflexivity.
  - reflexivity.
  - reflexivity.
  - eexists. exact Hrem.
Defined.

Lemma share_then_release_witness :
  let '(r1, u1, tr1) := uvm.AddVPMEM testHost testLinuxVM "C:\layers\a.vhd" in
  let '(r2, u2, tr2) := uvm.RemoveVPMEM testHost u1 "C:\layers\a.vhd" in
  r1 = uvm.Ok "/run/layers/p1" ∧ tr1 = [] ∧ tr2 = [] ∧ u2 = testLinuxVM.
Proof.
  pose proof (share_then_release testHost testHost testLinuxVM "C:\layers\a.vhd"
                1%nat layerA testLinuxVM_ok eq_refl) as Hs.
  destruct (uvm.AddVPMEM _ _ _) as [[r1 u1] tr1].
  destruct (uvm.RemoveVPMEM _ u1 _) as [[r2 u2] tr2].
  destruct Hs as (H1 & H2 & _ & _ & H5 & H6).
  - split_and!; [simpl; lia|reflexivity..].
  - simpl. lia.
  - by split_and!.
Defined.

Lemma uvm_table_ok_preserved_witness :
  uvm.table_ok (uvm.AddVPMEM testHost testLinuxVM "C:\layers\b.vhd").1.2.
Proof.
  destruct (table_ok_preserved testHost testLinuxVM "C:\layers\b.vhd" testLinuxVM_ok)
    as [Hadd _].
  exact Hadd.
Defined.

Lemma Mount_then_lookup_witness :
  ∃ m', cimfs.MountWithFlags testWinapi ∅ testCimPath 0
        = (cimfs.Ok (cimfs.volumePath testGUID), m',
           [cimfs.MountImage "C:\cims" "layer.cim" 0 testGUID])
        ∧ cimfs.GetCimMountPath m' testCimPath = inl (cimfs.volumePath testGUID).
Proof.
  eexists. split; [vm_compute; reflexivity|].
  match goal with
  | |- cimfs.GetCimMountPath ?m' _ = _ =>
      destruct (Mount_then_lookup testWinapi ∅ testCimPath 0
                  (cimfs.volumePath testGUID) m'
                  [cimfs.MountImage "C:\cims" "layer.cim" 0 testGUID])
        as (Hget & _)
  end.
  - vm_compute. reflexivity.
  - exact Hget.
Defined.

Lemma Mount_then_Unmount_witness :
  ∃ m1 tr1,
    cimfs.MountWithFlags testWinapi ∅ testCimPath 0
    = (cimfs.Ok (cimfs.volumePath testGUID), m1, tr1)
    ∧ ∃ g, cimfs.Unmount testWinapi m1 testCimPath
           = (None, ∅, [cimfs.DismountImage g]).
Proof.
  do 2 eexists. split; [vm_compute; reflexivity|].
  match goal with
  | |- ∃ g, cimfs.Unmount _ ?m1 _ = _ =>
      destruct (Mount_then_Unmount testWinapi testWinapi ∅ testCimPath 0
                  (cimfs.volumePath testGUID) m1
                  [cimfs.MountImage "C:\cims" "layer.cim" 0 testGUID])
        as (g & _ & Hu)
  end.
  - reflexivity.
  - vm_compute. reflexivity.
  - reflexivity.
  - by exists g.
Defined.

Lemma Mount_Unmount_shared_witness :
  let '(r1, m1, tr1) := cimfs.MountWithFlags testWinapi oneMount testCimPath 0 in
  let '(r2, m2, tr2) := cimfs.Unmount testWinapi m1 testCimPath in
  r1 = cimfs.Ok (cimfs.volumePath testGUID) ∧ tr1 = [] ∧ tr2 = [] ∧ m2 = oneMount.
Proof.
  pose proof (Mount_Unmount_shared testWinapi testWinapi oneMount testCimPath 0
                {| cimfs.path := testCimPath; cimfs.cimID := testGUID;
                   cimfs.refCount := 1 |}) as Hs.
  destruct (cimfs.MountWithFlags _ _ _ _) as [[r1 m1] tr1].
  destruct (cimfs.Unmount _ m1 _) as [[r2 m2] tr2].
  destruct Hs as (H1 & H2 & _ & _ & H5 & H6).
  - reflexivity.
  - simpl. lia.
  - by split_and!.
Defined.

Lemma cim_failure_and_frame_witness :
  cimfs.Unmount testWinapi ∅ testCimPath
  = (Some (cimfs.Errorf "cim not mounted"), ∅, []).
Proof.
  destruct (cim_failure_and_frame testWinapi ∅ testCimPath 0) as (_ & _ & Hno & _).
  destruct Hno as [Hu _]; [reflexivity|]. exact Hu.
Defined.

Lemma standalone_validates_first_witness :
  newHcsStandaloneTask podMember testConstructors wcowHeap testRequest wcowSpec
  = (Returned None (Some ErrFailedPrecondition), wcowHeap, []).
Proof.
  destruct (standalone_validates_first podMember testConstructors wcowHeap
              testRequest wcowSpec) as [_ Hpod].
  apply (Hpod KubernetesContainerTypeContainer "pod1"); [reflexivity|discriminate].
Defined.
